(** * Forecast-verification notebook: nearest grid point and RMSE

    A shallow embedding of the two functions defined in
    [notebooks/verification.ipynb]:

    - [lat_lon_2D_index], the haversine nearest-grid-point lookup, and
    - [rmse], the root mean square error of two series.

    NumPy's [float64] is IEEE 754 binary64, which is what Rocq's primitive
    [float] implements, so array elements are primitive floats and every
    arithmetic step rounds as it does in the notebook.  The three libm
    functions the notebook reaches through NumPy ([np.sin], [np.cos],
    [np.arctan2]) are not part of the repository; they are taken as a
    parameter ([Libm]).

    The cells that call the two functions are embedded as well: the
    series of each ensemble member at the grid point found, the ensemble
    mean, the accumulated observations and the RMSE of each member. *)

From Stdlib Require Import ZArith PArith Lia List Bool Arith Floats Permutation.
From Stdlib Require Reals.
From Stdlib Require String DecimalString DecimalNat.
Import ListNotations.

(** * Part I: the embedding *)

(** ** Binary64 values

    [spec_float] is the specification-level view of a primitive float
    ([Prim2SF]); the few definitions here name the cases the proofs
    distinguish. *)

Module F64.

Local Open Scope float_scope.

(** Three-way comparison without the NaN case, as a lexicographic key. *)
Definition sf_key (x : spec_float) : Z * Z * Z :=
  match x with
  | S754_infinity true => (-2, 0, 0)
  | S754_finite true m e => (-1, - e, Zneg m)
  | S754_zero _ => (0, 0, 0)
  | S754_nan => (0, 0, 0)
  | S754_finite false m e => (1, e, Zpos m)
  | S754_infinity false => (2, 0, 0)
  end%Z.

Definition lex3 (a b : Z * Z * Z) : comparison :=
  let '(a1, a2, a3) := a in
  let '(b1, b2, b3) := b in
  match (a1 ?= b1)%Z with
  | Eq => match (a2 ?= b2)%Z with Eq => (a3 ?= b3)%Z | c => c end
  | c => c
  end.

Definition key (x : float) : Z * Z * Z := sf_key (Prim2SF x).

Definition sf_is_nan (x : spec_float) : bool :=
  match x with S754_nan => true | _ => false end.

Definition sf_is_finite (x : spec_float) : bool :=
  match x with S754_zero _ | S754_finite _ _ _ => true | _ => false end.

(** A non-zero number or an infinity of sign [s]. *)
Variant sf_signed (s : bool) : spec_float -> Prop :=
| sps_fin m e : sf_signed s (S754_finite s m e)
| sps_inf : sf_signed s (S754_infinity s).

(** The element count of an array, converted to [float64] as NumPy does
    before dividing the sum by it. *)
Definition of_count (n : nat) : float := of_uint63 (Uint63.of_Z (Z.of_nat n)).

End F64.

(** ** NumPy arrays and the operations the notebook uses *)

Local Open Scope float_scope.

(** The exceptions NumPy raises on the paths the two functions take. *)
Inductive np_error : Set :=
| ValueError_broadcast      (* operands could not be broadcast together *)
| ValueError_empty_argmin   (* attempt to get argmin of an empty sequence *)
| ValueError_unravel.       (* index is out of bounds for array *)

Inductive result (A : Type) : Type :=
| Ok (a : A)
| Raise (e : np_error).
Arguments Ok {A} a.
Arguments Raise {A} e.

Definition bind {A B} (r : result A) (k : A -> result B) : result B :=
  match r with
  | Ok a => k a
  | Raise e => Raise e
  end.

Notation "x <- r ;; k" := (bind r (fun x => k))
  (at level 61, r at next level, right associativity).

Definition zip_with {A B C} (f : A -> B -> C) (xs : list A) (ys : list B) : list C :=
  map (fun p => f (fst p) (snd p)) (combine xs ys).

(** *** One-dimensional arrays

    A 1-D array of shape [(n,)] is the list of its [n] elements.  A binary
    ufunc on two 1-D arrays works element by element when the lengths agree,
    stretches a length-1 operand over the other one, and raises otherwise. *)
Definition broadcast1 {A B C} (f : A -> B -> C) (xs : list A) (ys : list B)
  : result (list C) :=
  if (length xs =? length ys)%nat then Ok (zip_with f xs ys)
  else match xs, ys with
       | [x], _ => Ok (map (f x) ys)
       | _, [y] => Ok (map (fun x => f x y) xs)
       | _, _ => Raise ValueError_broadcast
       end.

(** The arithmetic of an element type.  [float64] is the instance the
    notebook runs; the exact reals are the instance in which the same
    expression is read without rounding. *)
Record arith (T : Type) : Type := Arith {
  a_zero : T;
  a_add : T -> T -> T;
  a_sub : T -> T -> T;
  a_mul : T -> T -> T;
  a_div : T -> T -> T;
  a_sqrt : T -> T;
  a_of_count : nat -> T
}.
Arguments a_zero {T} _.
Arguments a_add {T} _ _ _.
Arguments a_sub {T} _ _ _.
Arguments a_mul {T} _ _ _.
Arguments a_div {T} _ _ _.
Arguments a_sqrt {T} _ _.
Arguments a_of_count {T} _ _.

Definition float64 : arith float :=
  {| a_zero := 0; a_add := add; a_sub := sub; a_mul := mul; a_div := div;
     a_sqrt := sqrt; a_of_count := F64.of_count |}.

Definition exact : arith Rdefinitions.R :=
  {| a_zero := Rdefinitions.IZR 0; a_add := Rdefinitions.Rplus;
     a_sub := Rdefinitions.Rminus; a_mul := Rdefinitions.Rmult;
     a_div := Rdefinitions.Rdiv; a_sqrt := R_sqrt.sqrt;
     a_of_count := Raxioms.INR |}.

Section ErrorMetrics.
Variable T : Type.
Variable ops : arith T.

(** [arr ** 2] on a floating array is [np.square]: each element times
    itself. *)
Definition square (xs : list T) : list T := map (fun e => a_mul ops e e) xs.

(** [add.reduce]: the elements are accumulated from left to right, which is
    the order of NumPy's summation loop for arrays of fewer than eight
    elements; longer arrays are summed in blocks, which rounds differently.
    What is proved below about [float64] series of any length rests on the
    squared errors alone (they are equal, or all zero); the worked series
    are short. *)
Definition np_sum (xs : list T) : T := fold_left (a_add ops) xs (a_zero ops).

(** [arr.mean()]: the sum divided by the number of elements. *)
Definition mean (xs : list T) : T :=
  a_div ops (np_sum xs) (a_of_count ops (length xs)).

(** [predictions - targets], the elementwise error. *)
Definition error (predictions targets : list T) : result (list T) :=
  broadcast1 (a_sub ops) predictions targets.

(** def rmse(predictions, targets):
        return np.sqrt(((predictions - targets) ** 2).mean()) *)
Definition rmse_over (predictions targets : list T) : result T :=
  diff <- error predictions targets ;;
  Ok (a_sqrt ops (mean (square diff))).
End ErrorMetrics.
Arguments square {T} ops xs.
Arguments np_sum {T} ops xs.
Arguments mean {T} ops xs.
Arguments error {T} ops predictions targets.
Arguments rmse_over {T} ops predictions targets.

(** [rmse] as the notebook runs it, on [float64] arrays. *)
Definition rmse : list float -> list float -> result float := rmse_over float64.

(** *** Two-dimensional arrays

    A 2-D array is its shape and its elements in row-major (C) order.  It
    is a plain [numpy.ndarray]: every element takes part in every
    operation, and an invalid result is the NaN that IEEE 754 gives.
    [numpy.ma] masked arrays, which hide elements and skip them in
    [argmin], are not modelled; they compute the same as long as nothing
    is masked and no distance is NaN. *)
Record ndarray : Type := NdArray {
  shape : nat * nat;
  data : list float
}.

Definition rows (a : ndarray) : nat := fst (shape a).
Definition cols (a : ndarray) : nat := snd (shape a).
Definition size (a : ndarray) : nat := (rows a * cols a)%nat.

Definition wf (a : ndarray) : Prop := length (data a) = size a.

(** [a[i, j]] *)
Definition get2 (a : ndarray) (i j : nat) : float :=
  nth (i * cols a + j) (data a) nan.

(** Broadcasting of one axis: equal extents, or one of them is 1. *)
Definition bdim (p q : nat) : option nat :=
  if (p =? q)%nat then Some p
  else if (p =? 1)%nat then Some q
  else if (q =? 1)%nat then Some p
  else None.

(** The element an operand contributes at position [(i, j)] of the
    broadcast result: an axis of extent 1 is read at index 0. *)
Definition at2 (a : ndarray) (i j : nat) : float :=
  get2 a (if (rows a =? 1)%nat then 0%nat else i)
         (if (cols a =? 1)%nat then 0%nat else j).

Definition tabulate2 (m n : nat) (g : nat -> nat -> float) : ndarray :=
  {| shape := (m, n);
     data := flat_map (fun i => map (g i) (seq 0 n)) (seq 0 m) |}.

(** A binary ufunc on two 2-D arrays. *)
Definition broadcast2 (f : float -> float -> float) (a b : ndarray)
  : result ndarray :=
  match bdim (rows a) (rows b), bdim (cols a) (cols b) with
  | Some m, Some n => Ok (tabulate2 m n (fun i j => f (at2 a i j) (at2 b i j)))
  | _, _ => Raise ValueError_broadcast
  end.

(** A unary ufunc, or a binary one with a scalar operand. *)
Definition amap (f : float -> float) (a : ndarray) : ndarray :=
  {| shape := shape a; data := map f (data a) |}.

Definition np_ones (sh : nat * nat) : ndarray :=
  {| shape := sh; data := repeat 1 (fst sh * snd sh) |}.

(** [arr.argmin()] on [float64] data: the scan keeps the running minimum
    [mp] and its index, replaces them when [not (v >= mp)], and stops at the
    first NaN, which counts as minimal. *)
Fixpoint argmin_from (mp : float) (min_ind i : nat) (rest : list float) : nat :=
  match rest with
  | [] => min_ind
  | v :: rest' =>
      if negb (mp <=? v) then
        if is_nan v then i else argmin_from v i (S i) rest'
      else argmin_from mp min_ind (S i) rest'
  end.

Definition argmin (xs : list float) : result nat :=
  match xs with
  | [] => Raise ValueError_empty_argmin
  | v :: rest => Ok (if is_nan v then 0%nat else argmin_from v 0 1 rest)
  end.

(** [np.unravel_index(k, (m, n))] in C order. *)
Definition unravel_index (k : nat) (sh : nat * nat) : result (nat * nat) :=
  let '(m, n) := sh in
  if (k <? m * n)%nat then Ok ((k / n)%nat, (k mod n)%nat)
  else Raise ValueError_unravel.

(** *** The libm functions behind [np.sin], [np.cos] and [np.arctan2] *)
Record Libm : Type := {
  np_sin : float -> float;
  np_cos : float -> float;
  np_arctan2 : float -> float -> float
}.

(** [np.pi] *)
Definition np_pi : float := 0x1.921fb54442d18p+1.

(** ** NearestPointLocator *)
Section NearestPointLocator.
Variable L : Libm.

Definition R : float := 6373 * 1000.   (* Earth's radius in meters *)
Definition rad : float := np_pi / 180.

(** The body of [lat_lon_2D_index] up to [d = R * c]. *)
Definition distances (y x : ndarray) (lat1 lon1 : float) : result ndarray :=
  let x1 := amap (fun o => o * lon1) (np_ones (shape x)) in
  let y1 := amap (fun o => o * lat1) (np_ones (shape y)) in
  dlon <- (d <- broadcast2 sub x x1 ;; Ok (amap abs d)) ;;
  dlat <- (d <- broadcast2 sub y y1 ;; Ok (amap abs d)) ;;
  let hav (t : ndarray) :=
    amap (fun s => s * s) (amap (np_sin L) (amap (fun v => rad * v / 2) t)) in
  cc <- broadcast2 mul (amap (np_cos L) (amap (mul rad) y1))
                       (amap (np_cos L) (amap (mul rad) y)) ;;
  t <- broadcast2 mul cc (hav dlon) ;;
  a <- broadcast2 add (hav dlat) t ;;
  q <- broadcast2 (np_arctan2 L) (amap sqrt a) (amap sqrt (amap (sub 1) a)) ;;
  let c := amap (mul 2) q in
  Ok (amap (mul R) c).

(** def lat_lon_2D_index(y, x, lat1, lon1):
        ...
        return np.unravel_index(d.argmin(), d.shape) *)
Definition lat_lon_2D_index (y x : ndarray) (lat1 lon1 : float)
  : result (nat * nat) :=
  d <- distances y x lat1 lon1 ;;
  k <- argmin (data d) ;;
  unravel_index k (shape d).

(** The haversine distance of the specification, for one grid cell:
    [a = sin²(Δlat/2) + cos(lat1)·cos(lat)·sin²(Δlon/2)],
    [c = 2·atan2(√a, √(1−a))], [d = R·c] with [R = 6 373 000] m, the
    degree values converted to radians.  It has constants of its own:
    [deg2rad] is the binary64 number nearest to π/180
    (0.017453292519943295), and the radius is written out. *)
Definition deg2rad : float := 0x1.1df46a2529d39p-6.

Definition haversine_spec (lat1 lon1 lat lon : float) : float :=
  let sq v := v * v in
  let dlat := abs (lat - lat1) in
  let dlon := abs (lon - lon1) in
  let a := sq (np_sin L (deg2rad * dlat / 2))
           + np_cos L (deg2rad * lat1) * np_cos L (deg2rad * lat)
             * sq (np_sin L (deg2rad * dlon / 2)) in
  let c := 2 * np_arctan2 L (sqrt a) (sqrt (1 - a)) in
  6373000 * c.
End NearestPointLocator.

(** ** A software libm

    Truncated power series for the three functions, good to about nine
    digits for arguments between [-pi] and [pi].  They instantiate [Libm] in
    the worked examples; the theorems hold for every [Libm]. *)
Module SoftLibm.

Definition soft_sin (x : float) : float :=
  let x2 := x * x in
  x * (1 - x2 / 6 * (1 - x2 / 20 * (1 - x2 / 42 * (1 - x2 / 72 *
      (1 - x2 / 110 * (1 - x2 / 156 * (1 - x2 / 210 * (1 - x2 / 272 *
      (1 - x2 / 342 * (1 - x2 / 420 * (1 - x2 / 506))))))))))).

Definition soft_cos (x : float) : float :=
  let x2 := x * x in
  1 - x2 / 2 * (1 - x2 / 12 * (1 - x2 / 30 * (1 - x2 / 56 *
      (1 - x2 / 90 * (1 - x2 / 132 * (1 - x2 / 182 * (1 - x2 / 240 *
      (1 - x2 / 306 * (1 - x2 / 380 * (1 - x2 / 462)))))))))).

Definition atan_series (t : float) : float :=
  let t2 := t * t in
  t * (1 - t2 * (1 / 3 - t2 * (1 / 5 - t2 * (1 / 7 - t2 * (1 / 9 -
      t2 * (1 / 11 - t2 / 13)))))).

(** [0 <= t <= 1]: two halvings of the angle, then the series. *)
Definition atan_unit (t : float) : float :=
  let h u := u / (1 + sqrt (1 + u * u)) in
  4 * atan_series (h (h t)).

Definition atan_pos (t : float) : float :=
  if t <=? 1 then atan_unit t else np_pi / 2 - atan_unit (1 / t).

Definition soft_arctan2 (y x : float) : float :=
  if is_nan y || is_nan x then nan
  else if 0 <? x then
    if y <? 0 then - atan_pos (- y / x) else atan_pos (y / x)
  else if x <? 0 then
    if y <? 0 then atan_pos (y / x) - np_pi else np_pi - atan_pos (- y / x)
  else if 0 <? y then np_pi / 2
  else if y <? 0 then - (np_pi / 2)
  else y.

Definition libm : Libm :=
  {| np_sin := soft_sin; np_cos := soft_cos; np_arctan2 := soft_arctan2 |}.

End SoftLibm.

(** ** Specification-side definitions *)

(** The distance the specification assigns to cell [(i, j)] of the grid. *)
Definition cell_distance (L : Libm) (y x : ndarray) (lat1 lon1 : float)
  (i j : nat) : float :=
  haversine_spec L lat1 lon1 (get2 y i j) (get2 x i j).

(** Position [(i, j)] is not after [(i', j')] in row-major order. *)
Definition row_major_le (i j i' j' : nat) : Prop :=
  (i < i')%nat \/ (i = i' /\ (j <= j')%nat).

(** What [argmin] promises about the index [k] it returns: if the element
    there is NaN it is the first NaN; otherwise no element is NaN, the
    element is below or equal to every element and strictly below every
    earlier one. *)
Definition argmin_spec (xs : list float) (k : nat) : Prop :=
  (k < length xs)%nat /\
  (is_nan (nth k xs nan) = true ->
   forall j, (j < k)%nat -> is_nan (nth j xs nan) = false) /\
  (is_nan (nth k xs nan) = false ->
   (forall j, (j < length xs)%nat -> (nth k xs nan <=? nth j xs nan) = true) /\
   (forall j, (j < k)%nat -> (nth k xs nan <? nth j xs nan) = true)).

(** An array of shape [(m, n)] whose elements are the images of one list of
    cells under [g]. *)
Definition pw {C : Type} (cells : list C) (m n : nat) (g : C -> float) : ndarray :=
  {| shape := (m, n); data := map g cells |}.

(** ** Worked inputs

    The grid and target of the specification's example (two cells around
    Lansing, target 42.78 N, 84.59 W), an empty grid, and short series. *)

Set Warnings "-inexact-float".

Definition lansing_lat : ndarray := {| shape := (1, 2)%nat; data := [42; 43] |}.
Definition lansing_lon : ndarray := {| shape := (1, 2)%nat; data := [-85; -84] |}.
Definition klan_lat : float := 42.78.
Definition klan_lon : float := -84.59.

Definition empty_grid : ndarray := {| shape := (0, 3)%nat; data := [] |}.

(** Two cells at the same distance from the target (0 N, 0 E). *)
Definition tie_lat : ndarray := {| shape := (1, 2)%nat; data := [0; 0] |}.
Definition tie_lon : ndarray := {| shape := (1, 2)%nat; data := [-1; 1] |}.

(** A grid whose second cell is the target itself. *)
Definition exact_lat : ndarray := {| shape := (1, 3)%nat; data := [42; 42.78; 43] |}.
Definition exact_lon : ndarray := {| shape := (1, 3)%nat; data := [-85; -84.59; -84] |}.

(** Two cells on the equator, the first one 1e-200 degrees east of the
    second. *)
Definition near_lat : ndarray := {| shape := (1, 2)%nat; data := [0; 0] |}.
Definition near_lon : ndarray := {| shape := (1, 2)%nat; data := [1e-200; 0] |}.

(** A cell at the target (87.5 N, 0 E) and the cell antipodal to it. *)
Definition antipode_lat : ndarray := {| shape := (1, 2)%nat; data := [87.5; -87.5] |}.
Definition antipode_lon : ndarray := {| shape := (1, 2)%nat; data := [0; 180] |}.

(** Two cells one degree west and east of that target, and the antipodal
    cell. *)
Definition tie_antipode_lat : ndarray :=
  {| shape := (1, 3)%nat; data := [87.5; 87.5; -87.5] |}.
Definition tie_antipode_lon : ndarray :=
  {| shape := (1, 3)%nat; data := [-1; 1; 180] |}.

(** Two cells on the equator: the first 360 degrees east of the target
    (0 N, 0 E), the second the target itself. *)
Definition wrap_lat : ndarray := {| shape := (1, 2)%nat; data := [0; 0] |}.
Definition wrap_lon : ndarray := {| shape := (1, 2)%nat; data := [360; 0] |}.

Definition series_a : list float := [0.1; 0.2; 3].
Definition series_a_rev : list float := [3; 0.2; 0.1].
Definition series_zero : list float := [0; 0; 0].

(** The same kind of series over the exact reals. *)
Definition exact_a : list Rdefinitions.R :=
  [Rdefinitions.IZR 1; Rdefinitions.IZR 2; Rdefinitions.IZR 3].
Definition exact_a_rev : list Rdefinitions.R :=
  [Rdefinitions.IZR 3; Rdefinitions.IZR 2; Rdefinitions.IZR 1].
Definition exact_zero : list Rdefinitions.R :=
  [Rdefinitions.IZR 0; Rdefinitions.IZR 0; Rdefinitions.IZR 0].

(** ** The cells around the two functions

    The notebook calls [lat_lon_2D_index] once, for the station KLAN, reads
    the accumulated precipitation of the twenty ensemble members at the grid
    point it returns, accumulates the hourly observations, and calls [rmse]
    once per member.  The files are read from disk; here the contents of
    their variables are arguments.  The unit tags that [pint] attaches to
    the arrays are not modelled: a quantity stands for its magnitude, which
    is what the cells embedded here pass on ([.m]). *)

(** A series with a missing value: one of its elements is NaN. *)
Definition has_nan (xs : list float) : Prop :=
  Exists (fun v => is_nan v = true) xs.

(** What these cells can raise besides the NumPy errors above. *)
Inductive py_error : Set :=
| NumPyError (e : np_error)
| IndexError                  (* index exceeds dimension bounds *)
| KeyError
| ValueError_inhomogeneous.   (* rows of different lengths do not form an array *)

Inductive outcome (A : Type) : Type :=
| Done (a : A)
| Fail (e : py_error).
Arguments Done {A} a.
Arguments Fail {A} e.

Definition and_then {A B} (r : outcome A) (k : A -> outcome B) : outcome B :=
  match r with
  | Done a => k a
  | Fail e => Fail e
  end.

Notation "x <~ r ;; k" := (and_then r (fun x => k))
  (at level 61, r at next level, right associativity).

Definition of_result {A} (r : result A) : outcome A :=
  match r with
  | Ok a => Done a
  | Raise e => Fail (NumPyError e)
  end.

(** *** Dictionaries

    A [dict] keeps its keys in insertion order; assigning to a key that is
    present replaces the value where it stands. *)
Definition dict (V : Type) : Type := list (String.string * V).

Fixpoint dict_set {V} (k : String.string) (v : V) (d : dict V) : dict V :=
  match d with
  | [] => [(k, v)]
  | (k', v') :: d' =>
      if String.eqb k k' then (k, v) :: d' else (k', v') :: dict_set k v d'
  end.

(** [d[k]] *)
Fixpoint dict_get {V} (k : String.string) (d : dict V) : outcome V :=
  match d with
  | [] => Fail KeyError
  | (k', v') :: d' => if String.eqb k k' then Done v' else dict_get k d'
  end.

(** [d.keys()] *)
Definition dict_keys {V} (d : dict V) : list String.string := map fst d.

(** A list comprehension whose body may raise: the first exception ends
    it. *)
Fixpoint comprehension {A B} (f : A -> outcome B) (xs : list A) : outcome (list B) :=
  match xs with
  | [] => Done []
  | x :: xs' => b <~ f x ;; bs <~ comprehension f xs' ;; Done (b :: bs)
  end.

Section Keys.
Import String.StringSyntax.
Local Open Scope string_scope.

(** [str(i)] of a non-negative integer: its decimal digits. *)
Definition str (i : nat) : String.string :=
  DecimalString.NilEmpty.string_of_uint (Nat.to_uint i).

(** ['mem'+str(i)] *)
Definition member_key (i : nat) : String.string := String.append "mem" (str i).

(** The key ['mem1'], written out in the notebook. *)
Definition mem1 : String.string := "mem1".

Definition mean_label : String.string := "Mean".
End Keys.

(** *** The forecast series of the members

    [tot_pcp] is a variable of a netCDF file with the dimensions (time, y,
    x): its shape and its value at each index. *)
Record ncvar : Type := NcVar {
  shape3 : nat * nat * nat;
  values3 : nat -> nat -> nat -> float
}.

(** [v[:-8, i, j]] for indices that are not negative: all but the last
    eight times at one grid point. *)
Definition point_series (v : ncvar) (i j : nat) : outcome (list float) :=
  let '(nt, m, n) := shape3 v in
  if (i <? m)%nat && (j <? n)%nat
  then Done (map (fun t => values3 v t i j) (seq 0 (nt - 8)))
  else Fail IndexError.

(** [l[:-8]] on a list, as the plots take it of [vtimes]. *)
Definition drop_last8 {A} (l : list A) : list A := firstn (length l - 8) l.

(** pcp = {}
    for i in range(1, 21):
        data = Dataset(...'_mem'+str(i)+'.nc')
        pcp['mem'+str(i)] = data.variables['tot_pcp'][:-8, idx[0], idx[1]].data * units(...)

    [load_step] is the body of the loop and [load_members] the loop over a
    range; [tot_pcp i] is the variable in the file of member [i]. *)
Definition load_step (tot_pcp : nat -> ncvar) (idx : nat * nat)
  (acc : outcome (dict (list float))) (i : nat) : outcome (dict (list float)) :=
  pcp <~ acc ;;
  s <~ point_series (tot_pcp i) (fst idx) (snd idx) ;;
  Done (dict_set (member_key i) s pcp).

Definition load_members (tot_pcp : nat -> ncvar) (idx : nat * nat)
  (members : list nat) : outcome (dict (list float)) :=
  fold_left (load_step tot_pcp idx) members (Done []).

(** *** The ensemble mean

    [np.mean(rows, axis=0)] of a list of 1-D [float64] arrays (a variable
    stored in single precision is averaged in single precision, which is
    not modelled).  Rows of one length form a 2-D array, and each column
    is summed from the first row to the last and divided by the number of
    rows.  No rows at all form an empty 1-D array, whose mean is the
    scalar NaN.  Rows of different lengths do not form an array (NumPy
    1.24 and later raise). *)
Inductive np_value : Type :=
| Scalar (v : float)
| Vector (xs : list float).

Definition column (rows : list (list float)) (t : nat) : list float :=
  map (fun r => nth t r nan) rows.

Definition mean_axis0 (rows : list (list float)) : outcome np_value :=
  match rows with
  | [] => Done (Scalar nan)
  | r :: rest =>
      if forallb (fun r' => (length r' =? length r)%nat) rest
      then Done (Vector (map (fun t => mean float64 (column rows t))
                             (seq 0 (length r))))
      else Fail ValueError_inhomogeneous
  end.

(** The magnitude of
    mean_pcp = np.mean([pcp[key].m for key in pcp.keys()], axis=0) * pcp['mem1'].units

    The mean is taken first; the lookup [pcp['mem1']] that fetches the unit
    comes after it and raises KeyError when there is no such key. *)
Definition mean_pcp (pcp : dict (list float)) : outcome np_value :=
  rows <~ comprehension (fun key => dict_get key pcp) (dict_keys pcp) ;;
  mean <~ mean_axis0 rows ;;
  _ <~ dict_get mem1 pcp ;;
  Done mean.

(** *** The accumulated observations *)

(** [np.cumsum] of a 1-D array: [out[0] = a[0]], [out[i] = out[i-1] + a[i]]. *)
Fixpoint cumsum_from (acc : float) (xs : list float) : list float :=
  match xs with
  | [] => []
  | x :: xs' => (acc + x) :: cumsum_from (acc + x) xs'
  end.

Definition np_cumsum (xs : list float) : list float :=
  match xs with
  | [] => []
  | x :: xs' => x :: cumsum_from x xs'
  end.

(** A missing value of a series, replaced by 0. *)
Definition nan_to_zero (x : float) : float := if is_nan x then 0 else x.

(** [Series.cumsum()] of a [float64] series: pandas skips missing values.
    It sums with every NaN replaced by 0 and puts NaN back at the places
    where the input had one. *)
Definition series_cumsum (xs : list float) : list float :=
  zip_with (fun x s => if is_nan x then nan else s)
           xs (np_cumsum (map nan_to_zero xs)).

(** [s[::3]]: the elements at the positions 0, 3, 6, ... *)
Definition every_third {A} (dflt : A) (xs : list A) : list A :=
  map (fun k => nth (3 * k) xs dflt) (seq 0 ((length xs + 2) / 3)).

(** obs_pcp = pd.concat((pd.Series(0), obs['Precipitation']))
    obs_pcp_sum = obs_pcp.cumsum()
    obs_pcp_sum_03h = np.array(obs_pcp_sum[::3]) * units.millimeter

    [precipitation] is the column of hourly amounts, a [float64] column. *)
Definition obs_pcp (precipitation : list float) : list float :=
  0 :: precipitation.

Definition obs_pcp_sum (precipitation : list float) : list float :=
  series_cumsum (obs_pcp precipitation).

Definition obs_pcp_sum_03h (precipitation : list float) : list float :=
  every_third nan (obs_pcp_sum precipitation).

(** *** The error of each member *)

(** ens_rmse = {}
    for mem in pcp.keys():
        ens_rmse[mem] = rmse(pcp[mem].m, obs_pcp_sum_03h.m)

    [ens_rmse_step] is the body of the loop. *)
Definition ens_rmse_step (pcp : dict (list float)) (obs : list float)
  (acc : outcome (dict float)) (mem : String.string) : outcome (dict float) :=
  ens <~ acc ;;
  s <~ dict_get mem pcp ;;
  v <~ of_result (rmse s obs) ;;
  Done (dict_set mem v ens).

Definition ens_rmse (pcp : dict (list float)) (obs : list float)
  : outcome (dict float) :=
  fold_left (ens_rmse_step pcp obs) (dict_keys pcp) (Done []).

(** *** The bar chart

    members = ['Mean', *[key for key in ens_rmse.keys()]]
    y_pos = np.arange(len(members))
    plt.bar(y_pos, [mean_rmse.m, *[ens_rmse[key] for key in ens_rmse.keys()]], ...)
    plt.xticks(y_pos, members) *)
Definition bar_members (ens : dict float) : list String.string :=
  mean_label :: dict_keys ens.

Definition bar_y_pos (ens : dict float) : list nat :=
  seq 0 (length (bar_members ens)).

Definition bar_heights (mean_rmse : float) (ens : dict float) : outcome (list float) :=
  hs <~ comprehension (fun key => dict_get key ens) (dict_keys ens) ;;
  Done (mean_rmse :: hs).

(** *** From the grids to the members' errors

    The statements above in the order of the notebook: the grid point of
    KLAN, the members' series there, the ensemble mean, the observations
    every three hours, the RMSE of each member.  The statements between
    them that plot, or that subtract [pint] quantities ([error],
    [mean_error], [mean_rmse]), are not part of it.  They work on the same
    series, so [run_cells] stands for the notebook where the series are
    aligned; on series of different lengths those statements raise before
    the loop over the members is reached, and [run_cells] says nothing
    about that case. *)
Record verification : Type := Verification {
  v_idx : nat * nat;
  v_pcp : dict (list float);
  v_mean_pcp : np_value;
  v_obs : list float;
  v_ens_rmse : dict float
}.

Definition run_cells (L : Libm) (lat lon : ndarray) (tot_pcp : nat -> ncvar)
  (precipitation : list float) : outcome verification :=
  idx <~ of_result (lat_lon_2D_index L lat lon klan_lat klan_lon) ;;
  pcp <~ load_members tot_pcp idx (seq 1 20) ;;
  mean <~ mean_pcp pcp ;;
  let obs := obs_pcp_sum_03h precipitation in
  ens <~ ens_rmse pcp obs ;;
  Done {| v_idx := idx; v_pcp := pcp; v_mean_pcp := mean; v_obs := obs;
          v_ens_rmse := ens |}.

(** ** Worked inputs for the cells

    A grid with a missing latitude, member files with [nt] times on the
    two-cell grid, three hourly amounts with and without a gap, and two
    small dictionaries. *)
Definition gap_lat : ndarray := {| shape := (1, 2)%nat; data := [42; nan] |}.

Definition plume_tot_pcp (nt i : nat) : ncvar :=
  {| shape3 := (nt, 1, 2)%nat;
     values3 := fun t _ x => F64.of_count (i * t + x) |}.

Definition hourly : list float := [0.5; 0; 1.5].
Definition hourly_gap : list float := [nan; 1; 2].

Definition two_members : dict (list float) :=
  [(member_key 1, [1; 2; 3]); (member_key 2, [0; nan; 0])].
Definition two_errors : dict float :=
  [(member_key 1, 1.5); (member_key 2, 2)].

(** * Part II: properties *)

(** ** Binary64 facts

    Everything here is derived from the specification of the primitive
    operations ([FloatAxioms]) by case analysis on [spec_float]. *)

Module F64Facts.

Import F64.
Local Open Scope float_scope.

Lemma SFcompare_key x y :
  sf_is_nan x = false -> sf_is_nan y = false ->
  SFcompare x y = Some (lex3 (sf_key x) (sf_key y)).
Proof.
  destruct x as [sx|sx| |sx mx ex], y as [sy|sy| |sy my ey];
    try discriminate; intros _ _;
    try (destruct sx; destruct sy; reflexivity);
    try (destruct sx; reflexivity); try (destruct sy; reflexivity).
  destruct sx, sy; try reflexivity; cbn [SFcompare sf_key lex3].
  change (-1 ?= -1)%Z with Eq. cbv iota.
  rewrite Z.compare_opp, (Z.compare_antisym ex ey).
  destruct (ex ?= ey)%Z; reflexivity.
Qed.

Lemma lex3_lt_le_trans a b c :
  lex3 a b = Lt -> lex3 b c <> Gt -> lex3 a c = Lt.
Proof.
  destruct a as [[a1 a2] a3], b as [[b1 b2] b3], c as [[c1 c2] c3].
  unfold lex3.
  destruct (Z.compare_spec a1 b1), (Z.compare_spec b1 c1), (Z.compare_spec a1 c1);
    try lia; try discriminate; try congruence;
  destruct (Z.compare_spec a2 b2), (Z.compare_spec b2 c2), (Z.compare_spec a2 c2);
    try lia; try discriminate; try congruence;
  destruct (Z.compare_spec a3 b3), (Z.compare_spec b3 c3), (Z.compare_spec a3 c3);
    try lia; try discriminate; try congruence.
Qed.

Lemma lex3_antisym a b : lex3 b a = CompOpp (lex3 a b).
Proof.
  destruct a as [[a1 a2] a3], b as [[b1 b2] b3]. unfold lex3.
  rewrite (Z.compare_antisym a1 b1), (Z.compare_antisym a2 b2), (Z.compare_antisym a3 b3).
  destruct (a1 ?= b1)%Z, (a2 ?= b2)%Z, (a3 ?= b3)%Z; reflexivity.
Qed.

(** *** Ordering of primitive floats *)

Lemma is_nan_spec x : is_nan x = sf_is_nan (Prim2SF x).
Proof.
  unfold is_nan. rewrite eqb_spec. unfold SFeqb.
  destruct (Prim2SF x) as [s|s| |s m e]; try (destruct s; reflexivity); try reflexivity.
  destruct s; cbn; rewrite Z.compare_refl, Pos.compare_cont_refl; reflexivity.
Qed.

Lemma ltb_char a b :
  (a <? b) = true <->
  is_nan a = false /\ is_nan b = false /\ lex3 (key a) (key b) = Lt.
Proof.
  rewrite ltb_spec, !is_nan_spec. unfold SFltb, key.
  destruct (sf_is_nan (Prim2SF a)) eqn:Ha.
  { destruct (Prim2SF a); try discriminate. cbn. intuition discriminate. }
  destruct (sf_is_nan (Prim2SF b)) eqn:Hb.
  { destruct (Prim2SF b); try discriminate.
    destruct (Prim2SF a); cbn; intuition discriminate. }
  rewrite (SFcompare_key _ _ Ha Hb).
  destruct (lex3 _ _); intuition discriminate.
Qed.

Lemma leb_char a b :
  (a <=? b) = true <->
  is_nan a = false /\ is_nan b = false /\ lex3 (key a) (key b) <> Gt.
Proof.
  rewrite leb_spec, !is_nan_spec. unfold SFleb, key.
  destruct (sf_is_nan (Prim2SF a)) eqn:Ha.
  { destruct (Prim2SF a); try discriminate. cbn. intuition discriminate. }
  destruct (sf_is_nan (Prim2SF b)) eqn:Hb.
  { destruct (Prim2SF b); try discriminate.
    destruct (Prim2SF a); cbn; intuition discriminate. }
  rewrite (SFcompare_key _ _ Ha Hb).
  destruct (lex3 _ _); intuition (discriminate || congruence).
Qed.

Lemma eqb_char a b :
  (a =? b) = true <->
  is_nan a = false /\ is_nan b = false /\ lex3 (key a) (key b) = Eq.
Proof.
  rewrite eqb_spec, !is_nan_spec. unfold SFeqb, key.
  destruct (sf_is_nan (Prim2SF a)) eqn:Ha.
  { destruct (Prim2SF a); try discriminate. cbn. intuition discriminate. }
  destruct (sf_is_nan (Prim2SF b)) eqn:Hb.
  { destruct (Prim2SF b); try discriminate.
    destruct (Prim2SF a); cbn; intuition discriminate. }
  rewrite (SFcompare_key _ _ Ha Hb).
  destruct (lex3 _ _); intuition discriminate.
Qed.

Lemma ltb_leb_trans a b c :
  (a <? b) = true -> (b <=? c) = true -> (a <? c) = true.
Proof.
  rewrite !ltb_char, leb_char. intros (Ha & _ & Hab) (_ & Hc & Hbc).
  repeat split; trivial. eapply lex3_lt_le_trans; eassumption.
Qed.

(** For two numbers, [not (b >= a)] means [b < a]. *)
Lemma not_leb_ltb a b :
  is_nan a = false -> is_nan b = false -> (a <=? b) = false -> (b <? a) = true.
Proof.
  intros Ha Hb H. apply ltb_char. repeat split; trivial.
  rewrite lex3_antisym.
  destruct (lex3 (key a) (key b)) eqn:E; try reflexivity; exfalso;
    (assert (X : (a <=? b) = true)
      by (apply leb_char; repeat split; trivial; rewrite E; discriminate));
    congruence.
Qed.

Lemma lex3_refl a : lex3 a a = Eq.
Proof. destruct a as [[a1 a2] a3]. unfold lex3. now rewrite !Z.compare_refl. Qed.

Lemma leb_refl a : is_nan a = false -> (a <=? a) = true.
Proof.
  intros H. apply leb_char. repeat split; trivial.
  rewrite lex3_refl. discriminate.
Qed.

Lemma ltb_leb a b : (a <? b) = true -> (a <=? b) = true.
Proof.
  rewrite ltb_char, leb_char. intros (Ha & Hb & H). repeat split; trivial.
  rewrite H. discriminate.
Qed.

Lemma ltb_not_leb a b : (a <? b) = true -> (b <=? a) = false.
Proof.
  intros H. destruct (b <=? a) eqn:E; trivial.
  apply ltb_char in H. apply leb_char in E.
  destruct H as (_ & _ & H), E as (_ & _ & E).
  rewrite lex3_antisym, H in E. now elim E.
Qed.

Lemma leb_not_ltb a b : (a <=? b) = true -> (b <? a) = false.
Proof.
  intros H. destruct (b <? a) eqn:E; trivial.
  apply ltb_not_leb in E. congruence.
Qed.

Lemma eqb_leb a b : (a =? b) = true -> (a <=? b) = true.
Proof.
  rewrite eqb_char, leb_char. intros (Ha & Hb & H). repeat split; trivial.
  rewrite H. discriminate.
Qed.

Lemma leb_antisym a b : (a <=? b) = true -> (b <=? a) = true -> (a =? b) = true.
Proof.
  rewrite !leb_char, eqb_char. intros (Ha & Hb & H1) (_ & _ & H2).
  repeat split; trivial. rewrite lex3_antisym in H2.
  destruct (lex3 (key a) (key b)); trivial; [now elim H2|now elim H1].
Qed.

Lemma leb_is_nan_r a b : (a <=? b) = true -> is_nan b = false.
Proof. rewrite leb_char. tauto. Qed.

Lemma ltb_nan_r a b : is_nan b = true -> (a <? b) = false.
Proof.
  intros Hb. destruct (a <? b) eqn:E; trivial.
  apply ltb_char in E. destruct E as (_ & E & _). congruence.
Qed.

(** *** Subtraction and squaring *)

Lemma SFabs_round_aux s s' m e l :
  SFabs (binary_round_aux prec emax s m e l) =
  SFabs (binary_round_aux prec emax s' m e l).
Proof.
  unfold binary_round_aux.
  destruct (shr_fexp prec emax m e l) as [mrs' e'].
  destruct (shr_fexp prec emax _ e' loc_Exact) as [mrs'' e''].
  destruct (shr_m mrs''); try reflexivity.
  destruct (Z.leb e'' _); reflexivity.
Qed.

Lemma SFabs_normalize_opp m e :
  SFabs (binary_normalize prec emax (- m) e false) =
  SFabs (binary_normalize prec emax m e false).
Proof.
  destruct m as [|p|p]; cbn [Z.opp binary_normalize]; try reflexivity;
    unfold binary_round; destruct (shl_align _ _ _); apply SFabs_round_aux.
Qed.

Lemma SFabs_sub_swap x y : SFabs (SF64sub x y) = SFabs (SF64sub y x).
Proof.
  destruct x as [sx|sx| |sx mx ex], y as [sy|sy| |sy my ey];
    try reflexivity;
    try (destruct sx; destruct sy; reflexivity);
    try (destruct sx; reflexivity); try (destruct sy; reflexivity).
  unfold SF64sub, SFsub. rewrite (Z.min_comm ey ex).
  set (A := cond_Zopp sx _). set (B := cond_Zopp sy _).
  replace (B - A)%Z with (- (A - B))%Z by lia.
  cbv zeta. symmetry. apply SFabs_normalize_opp.
Qed.

Lemma SFmul_abs x y : SFabs x = SFabs y -> SF64mul x x = SF64mul y y.
Proof.
  destruct x as [sx|sx| |sx mx ex], y as [sy|sy| |sy my ey];
    cbn; intros H; inversion H; subst; rewrite ?xorb_nilpotent; reflexivity.
Qed.

(** The squared error does not depend on the order of the operands. *)
Lemma sub_swap_sq a b : (a - b) * (a - b) = (b - a) * (b - a).
Proof.
  apply Prim2SF_inj. rewrite !mul_spec, !sub_spec.
  apply SFmul_abs, SFabs_sub_swap.
Qed.

(** *** Finite numbers *)

Lemma Prim2SF_zero : Prim2SF 0 = S754_zero false.
Proof. reflexivity. Qed.

Lemma Prim2SF_one : Prim2SF 1 = S754_finite false 4503599627370496 (-52).
Proof. reflexivity. Qed.

Lemma Prim2SF_infinity : Prim2SF infinity = S754_infinity false.
Proof. reflexivity. Qed.

Lemma is_finite_spec x : is_finite x = sf_is_finite (Prim2SF x).
Proof.
  unfold is_finite, is_infinity.
  rewrite is_nan_spec, eqb_spec, abs_spec, Prim2SF_infinity.
  destruct (Prim2SF x) as [s|s| |s m e]; reflexivity.
Qed.

Lemma sub_diag a : is_finite a = true -> a - a = 0.
Proof.
  rewrite is_finite_spec. intros H.
  apply Prim2SF_inj. rewrite sub_spec, Prim2SF_zero.
  destruct (Prim2SF a) as [s|s| |s m e]; try discriminate.
  - destruct s; reflexivity.
  - unfold SF64sub, SFsub. cbv zeta. rewrite Z.sub_diag. reflexivity.
Qed.

(** *** Multiplying by one, and rounding a positive integer *)

Lemma digits2_size p : digits2_pos p = Pos.size p.
Proof. induction p; cbn; congruence. Qed.

Lemma SFmul_one_l x : valid_binary x = true -> SF64mul (Prim2SF 1) x = x.
Proof.
  change (Prim2SF 1) with (S754_finite false 4503599627370496 (-52)).
  destruct x as [s|s| |s m e]; try reflexivity.
  cbn [valid_binary SpecFloat.valid_binary bounded]. unfold canonical_mantissa.
  intros H. apply andb_prop in H. destruct H as [Hc He].
  apply Z.eqb_eq in Hc.
  unfold SF64mul, SFmul. cbn [xorb].
  unfold binary_round_aux, shr_fexp.
  assert (Hd : Zdigits2 (Zpos (4503599627370496 * m))
               = (Zpos (digits2_pos m) + 52)%Z).
  { cbn. lia. }
  rewrite Hd.
  replace (Z.pos (digits2_pos m) + 52 + (-52 + e))%Z
    with (Z.pos (digits2_pos m) + e)%Z by lia.
  rewrite Hc.
  replace (e - (-52 + e))%Z with 52%Z by lia.
  cbn -[fexp Z.leb Z.sub Z.add].
  replace (-52 + e + 52)%Z with e by lia.
  rewrite Hc, Z.sub_diag. cbn -[Z.leb Z.sub].
  rewrite He. reflexivity.
Qed.

Lemma mul_1_l v : 1 * v = v.
Proof.
  apply Prim2SF_inj. rewrite mul_spec. apply SFmul_one_l, Prim2SF_valid.
Qed.

Lemma iter_pos_nat {A : Type} (f : A -> A) n x :
  SpecFloat.iter_pos f n x = Nat.iter (Pos.to_nat n) f x.
Proof.
  revert x. induction n as [n IH|n IH|]; intros x; cbn [SpecFloat.iter_pos].
  - rewrite !IH, Pos2Nat.inj_xI.
    replace (S (2 * Pos.to_nat n)) with (Pos.to_nat n + (Pos.to_nat n + 1))%nat by lia.
    rewrite !Nat.iter_add. reflexivity.
  - rewrite !IH, Pos2Nat.inj_xO.
    replace (2 * Pos.to_nat n)%nat with (Pos.to_nat n + Pos.to_nat n)%nat by lia.
    rewrite Nat.iter_add. reflexivity.
  - reflexivity.
Qed.

Lemma shr_m_shr_1 r : (0 <= shr_m r)%Z -> shr_m (shr_1 r) = Z.div2 (shr_m r).
Proof.
  destruct r as [m r s]. cbn [shr_m]. intros H.
  destruct m as [|[p|p|]|p]; try reflexivity; lia.
Qed.

Lemma shr_m_iter k r :
  (0 <= shr_m r)%Z -> shr_m (Nat.iter k shr_1 r) = (shr_m r / 2 ^ Z.of_nat k)%Z.
Proof.
  intros H. induction k as [|k IH].
  - cbn. now rewrite Z.div_1_r.
  - rewrite Nat.iter_succ, shr_m_shr_1.
    + rewrite IH, Z.div2_div, Z.div_div by lia.
      rewrite Nat2Z.inj_succ, Z.pow_succ_r by lia. f_equal. lia.
    + rewrite IH. apply Z.div_pos; lia.
Qed.

Lemma size_bound p : (2 ^ Zpos (Pos.size p) <= 2 * Zpos p)%Z.
Proof.
  pose proof (Pos.size_le p) as H.
  apply Pos2Z.pos_le_pos in H. rewrite Pos2Z.inj_pow in H. 
  change (Z.pos p~0) with (2 * Z.pos p)%Z in H. exact H.
Qed.

Lemma shr_fexp_pos m e l :
  (emin <= e)%Z ->
  (0 < shr_m (fst (shr_fexp prec emax (Zpos m) e l)) /\
   emin <= snd (shr_fexp prec emax (Zpos m) e l))%Z.
Proof.
  intros He. unfold shr_fexp, shr. cbn [Zdigits2].
  rewrite digits2_size.
  assert (Hm : shr_m (shr_record_of_loc (Zpos m) l) = Zpos m)
    by (destruct l as [|[]]; reflexivity).
  destruct (fexp prec emax (Z.pos (Pos.size m) + e) - e)%Z as [|n|n] eqn:En;
    cbn [fst snd]; rewrite ?Hm; try (split; lia).
  rewrite iter_pos_nat, shr_m_iter, Hm, positive_nat_Z by (rewrite Hm; lia).
  assert (Hn : (Zpos n <= Zpos (Pos.size m) - 1)%Z).
  { unfold fexp in En. change (SpecFloat.emin prec emax) with (-1074)%Z in *.
    change prec with 53%Z in *. lia. }
  split; [|lia].
  apply Z.div_str_pos. split; [lia|].
  pose proof (size_bound m) as Hs.
  assert (2 ^ Zpos n <= 2 ^ (Zpos (Pos.size m) - 1))%Z by (apply Z.pow_le_mono_r; lia).
  assert (2 * 2 ^ (Zpos (Pos.size m) - 1) = 2 ^ Zpos (Pos.size m))%Z.
  { rewrite <- Z.pow_succ_r by lia. f_equal. lia. }
  lia.
Qed.

Lemma round_aux_nonzero s m e l :
  (emin <= e)%Z -> sf_signed s (binary_round_aux prec emax s (Zpos m) e l).
Proof.
  intros He. unfold binary_round_aux.
  destruct (shr_fexp_pos m e l He) as [H1 H2].
  destruct (shr_fexp prec emax (Zpos m) e l) as [mrs' e']. cbn [fst snd] in *.
  set (m1 := round_nearest_even _ _).
  assert (Hm1 : (0 < m1)%Z).
  { unfold m1, round_nearest_even.
    destruct (loc_of_shr_record mrs') as [|[]]; try lia.
    destruct (Z.even _); lia. }
  destruct m1 as [|p1|p1]; try lia.
  destruct (shr_fexp_pos p1 e' loc_Exact H2) as [H3 H4].
  destruct (shr_fexp prec emax (Zpos p1) e' loc_Exact) as [mrs'' e'']. cbn [fst snd] in *.
  destruct (shr_m mrs'') as [|p2|p2]; try lia.
  destruct (Z.leb _ _); constructor.
Qed.

Lemma normalize_pos p :
  sf_signed false (binary_normalize prec emax (Zpos p) 0 false).
Proof.
  unfold binary_normalize, binary_round, shl_align.
  set (f := fexp _ _ _).
  assert (emin <= f)%Z by (apply Z.le_max_r).
  destruct (f - 0)%Z eqn:E; apply round_aux_nonzero; try lia.
  change (SpecFloat.emin prec emax) with (-1074)%Z. lia.
Qed.

Lemma of_count_pos n :
  (0 < n)%nat -> (Z.of_nat n < 2 ^ 63)%Z ->
  sf_signed false (Prim2SF (of_count n)).
Proof.
  intros Hn Hb. unfold of_count. rewrite of_uint63_spec, Uint63.of_Z_spec.
  change Uint63.wB with (2 ^ 63)%Z. rewrite Z.mod_small by lia.
  destruct (Z.of_nat n) as [|p|p] eqn:E; try lia. apply normalize_pos.
Qed.

Lemma zero_div_count n :
  (0 < n)%nat -> (Z.of_nat n < 2 ^ 63)%Z -> 0 / of_count n = 0.
Proof.
  intros Hn Hb. apply Prim2SF_inj. rewrite div_spec, Prim2SF_zero.
  destruct (of_count_pos n Hn Hb); reflexivity.
Qed.

(** *** Adding a product with zero *)

Lemma add_zero_mul_zero t : is_finite t = true -> 0 + t * 0 = 0.
Proof.
  rewrite is_finite_spec. intros H. apply Prim2SF_inj.
  rewrite add_spec, mul_spec, Prim2SF_zero.
  destruct (Prim2SF t) as [s|s| |s m e]; try discriminate; destruct s; reflexivity.
Qed.

(** *** Squares of numbers in [-1, 1] do not overflow *)

Lemma size_lt_pow p : (Zpos p < 2 ^ Zpos (Pos.size p))%Z.
Proof.
  pose proof (Pos.size_gt p) as H.
  apply Pos2Z.pos_lt_pos in H. now rewrite Pos2Z.inj_pow in H.
Qed.

Lemma size_succ p q :
  (Zpos q <= Zpos p + 1)%Z -> (Zpos (Pos.size q) <= Zpos (Pos.size p) + 1)%Z.
Proof.
  intros H. pose proof (size_bound q). pose proof (size_lt_pow p).
  assert (2 ^ Zpos (Pos.size q) < 2 ^ (Zpos (Pos.size p) + 2))%Z.
  { replace (Zpos (Pos.size p) + 2)%Z with (Z.succ (Z.succ (Zpos (Pos.size p)))) by lia.
    rewrite !Z.pow_succ_r by lia. lia. }
  apply Z.pow_lt_mono_r_iff in H2; lia.
Qed.

Lemma size_mul p q :
  (Zpos (Pos.size (p * q)) <= Zpos (Pos.size p) + Zpos (Pos.size q))%Z.
Proof.
  pose proof (size_bound (p * q)). pose proof (size_lt_pow p). pose proof (size_lt_pow q).
  assert (Zpos (p * q) < 2 ^ (Zpos (Pos.size p) + Zpos (Pos.size q)))%Z.
  { rewrite Z.pow_add_r, Pos2Z.inj_mul by lia. nia. }
  assert (2 ^ Zpos (Pos.size (p * q)) < 2 ^ (Zpos (Pos.size p) + Zpos (Pos.size q) + 1))%Z.
  { change (Zpos (Pos.size p) + Zpos (Pos.size q) + 1)%Z
      with (Z.succ (Zpos (Pos.size p) + Zpos (Pos.size q))).
    rewrite Z.pow_succ_r by lia. lia. }
  apply Z.pow_lt_mono_r_iff in H3; lia.
Qed.

(** The mantissa and exponent a right shift leaves. *)
Lemma shr_fexp_bounds m e l :
  (0 <= m)%Z ->
  (0 <= shr_m (fst (shr_fexp prec emax m e l)) <= m)%Z /\
  snd (shr_fexp prec emax m e l) = Z.max e (fexp prec emax (Zdigits2 m + e)).
Proof.
  intros Hm. unfold shr_fexp, shr.
  assert (Hr : shr_m (shr_record_of_loc m l) = m) by (destruct l as [|[]]; reflexivity).
  destruct (fexp prec emax (Zdigits2 m + e) - e)%Z as [|k|k] eqn:En; cbn [fst snd];
    rewrite ?Hr; try (split; lia).
  rewrite iter_pos_nat, shr_m_iter, Hr, positive_nat_Z by (rewrite Hr; lia).
  split; [|lia]. split.
  - apply Z.div_pos; lia.
  - apply Z.div_le_upper_bound; [lia|].
    assert (1 <= 2 ^ Zpos k)%Z by (apply Z.pow_le_mono_r with (b := 0%Z); lia). nia.
Qed.

Lemma round_aux_no_overflow s p e l :
  (Z.max (Z.max e (Zpos (Pos.size p) + e - 53)) (-1074)
   + Z.max 0 (Zpos (Pos.size p) - 52) <= 971)%Z ->
  sf_is_finite (binary_round_aux prec emax s (Zpos p) e l) = true.
Proof.
  intros Hb. unfold binary_round_aux.
  destruct (shr_fexp_bounds (Zpos p) e l) as [[H1 H1'] H2]; [lia|].
  destruct (shr_fexp prec emax (Zpos p) e l) as [mrs' e']. cbn [fst snd] in *.
  cbn [Zdigits2] in H2. rewrite digits2_size in H2.
  set (m1 := round_nearest_even _ _).
  assert (Hm1 : (0 <= m1 <= Zpos p + 1)%Z).
  { unfold m1, round_nearest_even.
    destruct (loc_of_shr_record mrs') as [|[]]; try lia.
    destruct (Z.even _); lia. }
  destruct (shr_fexp_bounds m1 e' loc_Exact) as [[H3 H3'] H4]; [lia|].
  destruct (shr_fexp prec emax m1 e' loc_Exact) as [mrs'' e'']. cbn [fst snd] in *.
  destruct (shr_m mrs'') as [|p2|p2]; try reflexivity; try lia.
  assert (He'' : (e'' <= 971)%Z).
  { destruct m1 as [|p1|p1]; try lia.
    cbn [Zdigits2] in H4. rewrite digits2_size in H4.
    pose proof (size_succ p p1 ltac:(lia)) as Hs.
    unfold fexp in H2, H4. change (SpecFloat.emin prec emax) with (-1074)%Z in *.
    change prec with 53%Z in *. lia. }
  change (emax - prec)%Z with 971%Z.
  apply Z.leb_le in He''. rewrite He''. reflexivity.
Qed.

Lemma sq_unit_finite c : (abs c <=? 1) = true -> is_finite (c * c) = true.
Proof.
  intros H. apply leb_char in H. destruct H as (Hn & _ & Hk).
  rewrite is_nan_spec, abs_spec in Hn. unfold key in Hk.
  rewrite abs_spec, Prim2SF_one in Hk.
  rewrite is_finite_spec, mul_spec.
  pose proof (Prim2SF_valid c) as Hv.
  destruct (Prim2SF c) as [s|s| |s m e]; try discriminate.
  - destruct s; reflexivity.
  - exfalso. apply Hk. reflexivity.
  - cbn [SFabs sf_key lex3] in Hk.
    cbn [SpecFloat.valid_binary bounded] in Hv. unfold canonical_mantissa in Hv.
    apply andb_prop in Hv. destruct Hv as [Hc _]. apply Z.eqb_eq in Hc.
    rewrite digits2_size in Hc.
    assert (He : (e <= -52)%Z).
    { change (1 ?= 1)%Z with Eq in Hk. cbv iota in Hk.
      destruct (Z.compare_spec e (-52)); try lia. now elim Hk. }
    unfold SF64mul, SFmul. apply round_aux_no_overflow.
    pose proof (size_mul m m).
    unfold fexp in Hc. change (SpecFloat.emin prec emax) with (-1074)%Z in *.
    change prec with 53%Z in *. lia.
Qed.

(** *** The sign of a difference *)

Lemma SFopp_round_aux s m e l :
  binary_round_aux prec emax (negb s) m e l
  = SFopp (binary_round_aux prec emax s m e l).
Proof.
  unfold binary_round_aux.
  destruct (shr_fexp prec emax m e l) as [mrs' e'].
  destruct (shr_fexp prec emax _ e' loc_Exact) as [mrs'' e''].
  destruct (shr_m mrs''); try reflexivity.
  destruct (Z.leb e'' _); reflexivity.
Qed.

Lemma SFopp_involutive x : SFopp (SFopp x) = x.
Proof. destruct x as [[]|[]| |[] m e]; reflexivity. Qed.

Lemma SFopp_normalize m e :
  m <> 0%Z ->
  binary_normalize prec emax (- m) e false
  = SFopp (binary_normalize prec emax m e false).
Proof.
  intros Hm. destruct m as [|p|p]; [congruence| |];
    cbn [Z.opp binary_normalize]; unfold binary_round;
    destruct (shl_align _ _ _).
  - apply (SFopp_round_aux false).
  - rewrite (SFopp_round_aux false), SFopp_involutive. reflexivity.
Qed.

Lemma SFsub_swap x y :
  SF64sub y x = SFopp (SF64sub x y) \/
  (SF64sub x y = S754_zero false /\ SF64sub y x = S754_zero false).
Proof.
  destruct x as [sx|sx| |sx mx ex], y as [sy|sy| |sy my ey];
    try (left; reflexivity);
    try (destruct sx; destruct sy; (left; reflexivity) || (right; split; reflexivity));
    try (destruct sx; left; reflexivity); try (destruct sy; left; reflexivity).
  unfold SF64sub, SFsub. rewrite (Z.min_comm ey ex).
  set (P := cond_Zopp sx _). set (Q := cond_Zopp sy _). cbv zeta.
  replace (Q - P)%Z with (- (P - Q))%Z by lia.
  destruct (Z.eq_dec (P - Q) 0) as [E|E].
  - right. rewrite E. split; reflexivity.
  - left. now apply SFopp_normalize.
Qed.

(** Swapping the operands negates the difference; two equal finite numbers
    differ by [+0] either way. *)
Lemma sub_swap_sign a b : b - a = - (a - b) \/ (a - b = 0 /\ b - a = 0).
Proof.
  destruct (SFsub_swap (Prim2SF a) (Prim2SF b)) as [H|[H1 H2]].
  - left. apply Prim2SF_inj. now rewrite opp_spec, !sub_spec.
  - right. split; apply Prim2SF_inj; rewrite sub_spec, Prim2SF_zero; assumption.
Qed.

Lemma float_neq a b : Leibniz.eqb a b = false -> a <> b.
Proof.
  intros H E. apply Leibniz.eqb_spec in E. congruence.
Qed.

End F64Facts.

(** ** Lists in row-major order *)

Lemma map_seq_offset {A : Type} (h : nat -> A) s n :
  map h (seq s n) = map (fun j => h (s + j)%nat) (seq 0 n).
Proof.
  revert s. induction n as [|n IH]; intros s; cbn [seq map].
  - reflexivity.
  - rewrite Nat.add_0_r. f_equal.
    rewrite (IH (S s)), <- (seq_shift n 0), map_map. apply map_ext. intros j.
    f_equal. lia.
Qed.

Lemma flat_map_rowmajor {A : Type} (h : nat -> A) m n :
  flat_map (fun i => map (fun j => h (i * n + j)%nat) (seq 0 n)) (seq 0 m)
  = map h (seq 0 (m * n)).
Proof.
  induction m as [|m IH].
  - reflexivity.
  - rewrite seq_S, flat_map_app, IH. cbn [flat_map Nat.add].
    rewrite app_nil_r.
    replace (S m * n)%nat with (m * n + n)%nat by lia.
    rewrite seq_app, map_app. f_equal.
    symmetry. apply map_seq_offset.
Qed.

Lemma map_nth_seq {A B : Type} (F : A -> B) (l : list A) d :
  map (fun k => F (nth k l d)) (seq 0 (length l)) = map F l.
Proof.
  induction l as [|a l IH]; cbn [length seq map nth].
  - reflexivity.
  - f_equal. rewrite <- seq_shift, map_map. exact IH.
Qed.

Lemma flat_map_ext_in {A B : Type} (f g : A -> list B) l :
  (forall a, In a l -> f a = g a) -> flat_map f l = flat_map g l.
Proof.
  induction l as [|a l IH]; intros H; cbn [flat_map].
  - reflexivity.
  - rewrite (H a) by (left; reflexivity). f_equal.
    apply IH. intros b Hb. apply H. right. exact Hb.
Qed.

Lemma rowmajor_lt i j m n : (i < m)%nat -> (j < n)%nat -> (i * n + j < m * n)%nat.
Proof. intros. nia. Qed.

Lemma combine_map_fst {A B : Type} (l1 : list A) (l2 : list B) :
  length l1 = length l2 -> map fst (combine l1 l2) = l1.
Proof.
  revert l2. induction l1 as [|a l1 IH]; intros [|b l2] H; cbn in *;
    try discriminate; try reflexivity.
  f_equal. apply IH. lia.
Qed.

Lemma combine_map_snd {A B : Type} (l1 : list A) (l2 : list B) :
  length l1 = length l2 -> map snd (combine l1 l2) = l2.
Proof.
  revert l2. induction l1 as [|a l1 IH]; intros [|b l2] H; cbn in *;
    try discriminate; try reflexivity.
  f_equal. apply IH. lia.
Qed.

Lemma length_zip_with {A B C : Type} (f : A -> B -> C) xs ys :
  length xs = length ys -> length (zip_with f xs ys) = length xs.
Proof.
  intros H. unfold zip_with. rewrite length_map, length_combine. lia.
Qed.

Lemma nth_zip_with {A B C : Type} (f : A -> B -> C) xs ys k da db dc :
  length xs = length ys -> (k < length xs)%nat ->
  nth k (zip_with f xs ys) dc = f (nth k xs da) (nth k ys db).
Proof.
  intros H Hk. unfold zip_with.
  rewrite (nth_indep _ dc (f da db)) by (rewrite length_map, length_combine; lia).
  change (f da db) with ((fun p => f (fst p) (snd p)) (da, db)).
  rewrite map_nth, combine_nth by exact H. reflexivity.
Qed.

Lemma nth_snoc_old {A : Type} (pre : list A) v j d :
  (j < length pre)%nat -> nth j (pre ++ [v]) d = nth j pre d.
Proof. intros H. now apply app_nth1. Qed.

Lemma nth_snoc_new {A : Type} (pre : list A) v d :
  nth (length pre) (pre ++ [v]) d = v.
Proof. rewrite app_nth2, Nat.sub_diag by lia. reflexivity. Qed.

(** ** Arrays that are pointwise images of one list of cells *)

Section Pointwise.
Variables (C : Type) (cells : list C) (dflt : C) (m n : nat).
Hypothesis Hlen : length cells = (m * n)%nat.

Lemma pw_amap f g : amap f (pw cells m n g) = pw cells m n (fun c => f (g c)).
Proof. unfold amap, pw. cbn. now rewrite map_map. Qed.

Lemma pw_at2 g i j :
  (i < m)%nat -> (j < n)%nat ->
  at2 (pw cells m n g) i j = g (nth (i * n + j) cells dflt).
Proof.
  intros Hi Hj. unfold at2, get2, rows, cols, pw. cbn [shape fst snd data].
  assert (Ei : (if (m =? 1)%nat then 0%nat else i) = i).
  { destruct (Nat.eqb_spec m 1); lia. }
  assert (Ej : (if (n =? 1)%nat then 0%nat else j) = j).
  { destruct (Nat.eqb_spec n 1); lia. }
  rewrite Ei, Ej.
  rewrite (nth_indep _ nan (g dflt)).
  - apply map_nth.
  - rewrite length_map, Hlen. now apply rowmajor_lt.
Qed.

Lemma pw_broadcast2 f g1 g2 :
  broadcast2 f (pw cells m n g1) (pw cells m n g2)
  = Ok (pw cells m n (fun c => f (g1 c) (g2 c))).
Proof.
  unfold broadcast2, bdim, rows, cols. cbn [pw shape fst snd].
  rewrite !Nat.eqb_refl. f_equal. unfold tabulate2, pw. f_equal.
  rewrite <- (map_nth_seq (fun c => f (g1 c) (g2 c)) cells dflt), Hlen.
  rewrite <- flat_map_rowmajor.
  apply flat_map_ext_in. intros i Hi. apply map_ext_in. intros j Hj.
  apply in_seq in Hi, Hj.
  change {| shape := (m, n); data := map g1 cells |} with (pw cells m n g1).
  change {| shape := (m, n); data := map g2 cells |} with (pw cells m n g2).
  rewrite !pw_at2 by lia. reflexivity.
Qed.

Lemma pw_ones : np_ones (m, n) = pw cells m n (fun _ => 1).
Proof.
  unfold np_ones, pw. cbn [fst snd]. f_equal.
  rewrite <- Hlen. clear Hlen. induction cells; cbn; congruence.
Qed.
End Pointwise.

(** ** The distance array is the haversine formula cell by cell *)

Lemma R_value : R = 6373000.
Proof. reflexivity. Qed.

(** The factor the code computes as [np.pi / 180] is π/180 to the last
    bit. *)
Lemma rad_value : rad = deg2rad.
Proof. reflexivity. Qed.

Lemma distances_haversine (L : Libm) y x lat1 lon1 m n :
  wf y -> wf x -> shape y = (m, n) -> shape x = (m, n) ->
  distances L y x lat1 lon1
  = Ok {| shape := (m, n);
          data := zip_with (haversine_spec L lat1 lon1) (data y) (data x) |}.
Proof.
  intros Wy Wx Sy Sx.
  destruct y as [shy ly], x as [shx lx]. cbn [shape data] in *. subst shy shx.
  unfold wf, size, rows, cols in Wy, Wx. cbn [shape data fst snd] in Wy, Wx.
  set (cells := combine ly lx).
  assert (Hlen : length cells = (m * n)%nat)
    by (unfold cells; rewrite length_combine; lia).
  assert (Ey : {| shape := (m, n); data := ly |} = pw cells m n fst).
  { unfold pw, cells. now rewrite combine_map_fst by lia. }
  assert (Ex : {| shape := (m, n); data := lx |} = pw cells m n snd).
  { unfold pw, cells. now rewrite combine_map_snd by lia. }
  unfold distances. cbn [shape data].
  rewrite Ey, Ex, (pw_ones _ cells m n Hlen).
  repeat (rewrite ?pw_amap, ?(pw_broadcast2 _ cells (0, 0) m n Hlen); cbn [bind]).
  f_equal. unfold pw, zip_with. f_equal. fold cells.
  apply map_ext. intros [lat lon]. cbn [fst snd].
  unfold haversine_spec. rewrite !F64Facts.mul_1_l, R_value, rad_value.
  reflexivity.
Qed.

(** ** [argmin] returns the first minimum *)

Lemma argmin_from_spec rest :
  forall pre mp ind,
    (ind < length pre)%nat ->
    nth ind pre nan = mp ->
    is_nan mp = false ->
    (forall j, (j < length pre)%nat -> (mp <=? nth j pre nan) = true) ->
    (forall j, (j < ind)%nat -> (mp <? nth j pre nan) = true) ->
    argmin_spec (pre ++ rest) (argmin_from mp ind (length pre) rest).
Proof.
  induction rest as [|v rest IH]; intros pre mp ind Hind Hmp Hnan Hle Hlt.
  - cbn [argmin_from]. rewrite app_nil_r. unfold argmin_spec.
    rewrite Hmp, Hnan. repeat split; trivial; discriminate.
  - cbn [argmin_from].
    replace (pre ++ v :: rest) with ((pre ++ [v]) ++ rest)
      by (rewrite <- app_assoc; reflexivity).
    assert (Hlen : length (pre ++ [v]) = S (length pre))
      by (rewrite length_app; cbn; lia).
    destruct (mp <=? v) eqn:Hv; cbn [negb].
    + rewrite <- Hlen. apply IH.
      * lia.
      * rewrite nth_snoc_old; trivial.
      * exact Hnan.
      * intros j Hj. rewrite Hlen in Hj.
        destruct (Nat.eq_dec j (length pre)) as [->|Hne].
        -- now rewrite nth_snoc_new.
        -- rewrite nth_snoc_old by lia. apply Hle. lia.
      * intros j Hj. rewrite nth_snoc_old by lia. now apply Hlt.
    + destruct (is_nan v) eqn:Hvn.
      * unfold argmin_spec. rewrite app_nth1 by lia.
        rewrite nth_snoc_new, Hvn, !length_app. cbn [length].
        split; [lia|]. split; [|discriminate].
        intros _ j Hj. rewrite app_nth1, nth_snoc_old by lia.
        eapply F64Facts.leb_is_nan_r, Hle, Hj.
      * assert (Hvm : (v <? mp) = true) by now apply F64Facts.not_leb_ltb.
        rewrite <- Hlen. apply IH.
        -- lia.
        -- apply nth_snoc_new.
        -- exact Hvn.
        -- intros j Hj. rewrite Hlen in Hj.
           destruct (Nat.eq_dec j (length pre)) as [->|Hne].
           ++ rewrite nth_snoc_new. now apply F64Facts.leb_refl.
           ++ rewrite nth_snoc_old by lia.
              apply F64Facts.ltb_leb. eapply F64Facts.ltb_leb_trans; [exact Hvm|].
              apply Hle. lia.
        -- intros j Hj. rewrite nth_snoc_old by lia.
           eapply F64Facts.ltb_leb_trans; [exact Hvm|]. apply Hle. lia.
Qed.

Lemma argmin_ok xs :
  xs <> [] -> exists k, argmin xs = Ok k /\ argmin_spec xs k.
Proof.
  destruct xs as [|v rest]; [congruence|]. intros _.
  eexists. split; [reflexivity|].
  destruct (is_nan v) eqn:Hv.
  - unfold argmin_spec. cbn [nth length]. rewrite Hv.
    split; [lia|]. split; [intros _ j Hj; lia|discriminate].
  - apply (argmin_from_spec rest [v] v 0%nat); cbn [length nth]; trivial.
    + lia.
    + intros j Hj. assert (j = 0%nat) as -> by lia. now apply F64Facts.leb_refl.
    + intros j Hj. lia.
Qed.

(** No element is strictly below the one [argmin] selects. *)
Lemma argmin_spec_minimal xs k j :
  argmin_spec xs k -> (j < length xs)%nat ->
  (nth j xs nan <? nth k xs nan) = false.
Proof.
  intros (_ & _ & H) Hj.
  destruct (is_nan (nth k xs nan)) eqn:E.
  - now apply F64Facts.ltb_nan_r.
  - apply F64Facts.leb_not_ltb, H; trivial.
Qed.

(** Without NaNs the selected element is below or equal to every element. *)
Lemma argmin_spec_least xs k :
  argmin_spec xs k ->
  (forall j, (j < length xs)%nat -> is_nan (nth j xs nan) = false) ->
  forall j, (j < length xs)%nat -> (nth k xs nan <=? nth j xs nan) = true.
Proof.
  intros (Hk & _ & H) Hnn. apply H, Hnn, Hk.
Qed.

(** An element equal to the selected one does not come before it. *)
Lemma argmin_spec_first xs k j :
  argmin_spec xs k -> (nth j xs nan =? nth k xs nan) = true -> (k <= j)%nat.
Proof.
  intros (_ & _ & H) He.
  destruct (le_lt_dec k j) as [|Hjk]; trivial. exfalso.
  pose proof (F64Facts.eqb_leb _ _ He) as Hle.
  pose proof (F64Facts.leb_is_nan_r _ _ Hle) as Hk.
  destruct (H Hk) as [_ Hlt].
  apply F64Facts.leb_not_ltb in Hle. rewrite (Hlt j Hjk) in Hle. discriminate.
Qed.

(** ** The locator on a non-empty grid *)

Lemma unravel_rowmajor k n : (0 < n)%nat -> (k / n * n + k mod n)%nat = k.
Proof. intros Hn. pose proof (Nat.div_mod_eq k n). lia. Qed.

Lemma unravel_bounds k m n :
  (k < m * n)%nat -> (k / n < m)%nat /\ (k mod n < n)%nat.
Proof.
  intros Hk. assert (Hn : (0 < n)%nat) by nia. split.
  - apply Nat.Div0.div_lt_upper_bound. lia.
  - apply Nat.mod_upper_bound. lia.
Qed.

(** The distance stored at flat position [i * n + j] is the distance of
    cell [(i, j)]. *)
Lemma nth_cell_distance L y x lat1 lon1 m n i j :
  wf y -> wf x -> shape y = (m, n) -> shape x = (m, n) ->
  (i < m)%nat -> (j < n)%nat ->
  nth (i * n + j) (zip_with (haversine_spec L lat1 lon1) (data y) (data x)) nan
  = cell_distance L y x lat1 lon1 i j.
Proof.
  intros Wy Wx Sy Sx Hi Hj.
  unfold wf, size, rows, cols in Wy, Wx. rewrite Sy in Wy. rewrite Sx in Wx.
  cbn [fst snd] in Wy, Wx.
  unfold cell_distance, get2, cols. rewrite Sy, Sx. cbn [snd].
  apply nth_zip_with; [lia|]. rewrite Wy. now apply rowmajor_lt.
Qed.

(** On a non-empty grid the locator returns the unravelled [argmin] of the
    haversine distances. *)
Lemma locator_core L y x lat1 lon1 m n :
  wf y -> wf x -> shape y = (m, n) -> shape x = (m, n) -> (0 < m * n)%nat ->
  exists k,
    (k < m * n)%nat /\
    lat_lon_2D_index L y x lat1 lon1 = Ok ((k / n)%nat, (k mod n)%nat) /\
    argmin_spec (zip_with (haversine_spec L lat1 lon1) (data y) (data x)) k.
Proof.
  intros Wy Wx Sy Sx Hmn.
  unfold lat_lon_2D_index.
  rewrite (distances_haversine L y x lat1 lon1 m n Wy Wx Sy Sx). cbn [bind data shape].
  set (d := zip_with _ _ _).
  assert (Hd : length d = (m * n)%nat).
  { unfold d. unfold wf, size, rows, cols in Wy, Wx.
    rewrite Sy in Wy. rewrite Sx in Wx. cbn [fst snd] in Wy, Wx.
    rewrite length_zip_with; lia. }
  destruct (argmin_ok d) as (k & Ek & Hk).
  { intros E. rewrite E in Hd. cbn in Hd. lia. }
  exists k. rewrite Ek. cbn [bind unravel_index].
  assert (Hkl : (k < m * n)%nat) by (rewrite <- Hd; apply Hk).
  apply Nat.ltb_lt in Hkl as Hb. rewrite Hb. auto.
Qed.

Lemma row_major_le_flat i j i' j' n :
  (j < n)%nat -> (j' < n)%nat ->
  (i * n + j <= i' * n + j')%nat -> row_major_le i j i' j'.
Proof.
  intros Hj Hj' H. unfold row_major_le.
  destruct (Nat.lt_trichotomy i i') as [Hlt|[Heq|Hgt]].
  - now left.
  - right. split; [exact Heq|]. subst i'. lia.
  - exfalso. nia.
Qed.

(** The same, cell by cell: the returned cell is in range, no cell is
    strictly nearer, without NaNs it is at most as far as every cell, and
    every cell at an equal distance comes at or after it. *)
Lemma locator_cells L y x lat1 lon1 m n :
  wf y -> wf x -> shape y = (m, n) -> shape x = (m, n) -> (0 < m * n)%nat ->
  exists i j,
    lat_lon_2D_index L y x lat1 lon1 = Ok (i, j) /\
    (i < m)%nat /\ (j < n)%nat /\
    (forall i' j', (i' < m)%nat -> (j' < n)%nat ->
       (cell_distance L y x lat1 lon1 i' j' <? cell_distance L y x lat1 lon1 i j)
       = false) /\
    ((forall i' j', (i' < m)%nat -> (j' < n)%nat ->
        is_nan (cell_distance L y x lat1 lon1 i' j') = false) ->
     forall i' j', (i' < m)%nat -> (j' < n)%nat ->
       (cell_distance L y x lat1 lon1 i j <=? cell_distance L y x lat1 lon1 i' j')
       = true) /\
    (forall i' j', (i' < m)%nat -> (j' < n)%nat ->
       (cell_distance L y x lat1 lon1 i' j' =? cell_distance L y x lat1 lon1 i j)
       = true ->
       row_major_le i j i' j').
Proof.
  intros Wy Wx Sy Sx Hmn.
  destruct (locator_core L y x lat1 lon1 m n Wy Wx Sy Sx Hmn) as (k & Hk & Ek & Hspec).
  destruct (unravel_bounds k m n Hk) as [Hi Hj].
  assert (Hn : (0 < n)%nat) by nia.
  set (d := zip_with (haversine_spec L lat1 lon1) (data y) (data x)) in *.
  assert (Hd : length d = (m * n)%nat).
  { unfold d. unfold wf, size, rows, cols in Wy, Wx.
    rewrite Sy in Wy. rewrite Sx in Wx. cbn [fst snd] in Wy, Wx.
    rewrite length_zip_with; lia. }
  assert (Hcell : forall i' j', (i' < m)%nat -> (j' < n)%nat ->
            nth (i' * n + j') d nan = cell_distance L y x lat1 lon1 i' j')
    by (intros; now apply nth_cell_distance with (m := m)).
  assert (Hret : nth k d nan = cell_distance L y x lat1 lon1 (k / n) (k mod n)).
  { rewrite <- Hcell by assumption. now rewrite unravel_rowmajor. }
  exists (k / n)%nat, (k mod n)%nat. repeat split; trivial.
  - intros i' j' Hi' Hj'. rewrite <- Hret, <- Hcell by assumption.
    apply argmin_spec_minimal; trivial. rewrite Hd. now apply rowmajor_lt.
  - intros Hnn i' j' Hi' Hj'. rewrite <- Hret, <- Hcell by assumption.
    apply argmin_spec_least; trivial.
    + intros q Hq. rewrite Hd in Hq.
      destruct (unravel_bounds q m n Hq) as [Hqi Hqj].
      rewrite <- (unravel_rowmajor q n Hn), Hcell by assumption. now apply Hnn.
    + rewrite Hd. now apply rowmajor_lt.
  - intros i' j' Hi' Hj'. rewrite <- Hret, <- Hcell by assumption. intros He.
    apply row_major_le_flat with (n := n); trivial.
    rewrite unravel_rowmajor by assumption.
    exact (argmin_spec_first d k (i' * n + j') Hspec He).
Qed.

(** ** The distance of a cell that coincides with the target *)

Lemma haversine_spec_self (L : Libm) (lat1 lon1 : float) :
  np_sin L 0 = 0 -> np_arctan2 L 0 1 = 0 ->
  (abs (np_cos L (deg2rad * lat1)) <=? 1) = true ->
  is_finite lat1 = true -> is_finite lon1 = true ->
  haversine_spec L lat1 lon1 lat1 lon1 = 0.
Proof.
  intros Hsin Hatan Hcos Hlat Hlon. unfold haversine_spec. cbv zeta.
  apply F64Facts.sq_unit_finite in Hcos.
  rewrite (F64Facts.sub_diag lat1 Hlat), (F64Facts.sub_diag lon1 Hlon).
  change (deg2rad * abs 0 / 2) with 0. rewrite Hsin.
  change (0 * 0) with 0. rewrite (F64Facts.add_zero_mul_zero _ Hcos).
  change (sqrt 0) with 0. change (sqrt (1 - 0)) with 1. rewrite Hatan.
  reflexivity.
Qed.

Lemma rowmajor_div i j n : (j < n)%nat -> ((i * n + j) / n)%nat = i.
Proof.
  intros H. rewrite Nat.add_comm, Nat.div_add by lia.
  rewrite Nat.div_small by lia. reflexivity.
Qed.

Lemma rowmajor_mod i j n : (j < n)%nat -> ((i * n + j) mod n)%nat = j.
Proof.
  intros H. rewrite Nat.add_comm, Nat.Div0.mod_add.
  apply Nat.mod_small. lia.
Qed.

(** ** ErrorMetrics in binary64 *)

Lemma square_zip_swap (A B : list float) :
  square float64 (zip_with sub A B) = square float64 (zip_with sub B A).
Proof.
  revert B. induction A as [|a A IH]; intros [|b B]; try reflexivity.
  unfold square, zip_with in *. cbn [combine map fst snd a_mul float64].
  f_equal; [apply F64Facts.sub_swap_sq|apply IH].
Qed.

Lemma square_map_swap (a : float) (B : list float) :
  square float64 (map (sub a) B) = square float64 (map (fun b => b - a) B).
Proof.
  unfold square. rewrite !map_map. apply map_ext. intros b.
  apply F64Facts.sub_swap_sq.
Qed.

(** The squared errors do not depend on the order of the two arguments,
    whichever way they are broadcast. *)
Lemma error_square_swap (A B : list float) :
  (d <- error float64 A B ;; Ok (square float64 d))
  = (d <- error float64 B A ;; Ok (square float64 d)).
Proof.
  unfold error, broadcast1. cbn [a_sub float64].
  rewrite (Nat.eqb_sym (length B) (length A)).
  destruct (Nat.eqb_spec (length A) (length B)) as [E|E].
  - cbn [bind]. f_equal. apply square_zip_swap.
  - destruct A as [|a [|a' A]], B as [|b [|b' B]]; cbn [length] in E;
      try (exfalso; apply E; reflexivity); cbn [bind]; try reflexivity;
      f_equal; first [apply square_map_swap | symmetry; apply square_map_swap].
Qed.

Lemma rmse_unfold (A B : list float) :
  rmse A B
  = (sq <- (d <- error float64 A B ;; Ok (square float64 d)) ;;
     Ok (sqrt (mean float64 sq))).
Proof.
  unfold rmse, rmse_over. destruct (error float64 A B); reflexivity.
Qed.

Lemma rmse_swap_any (A B : list float) : rmse A B = rmse B A.
Proof. rewrite !rmse_unfold, error_square_swap. reflexivity. Qed.

Lemma zip_with_diag {A C : Type} (f : A -> A -> C) (xs : list A) :
  zip_with f xs xs = map (fun a => f a a) xs.
Proof.
  unfold zip_with. induction xs as [|a xs IH]; cbn; congruence.
Qed.

Lemma np_sum_zeros (k : nat) : np_sum float64 (repeat 0 k) = 0.
Proof.
  unfold np_sum. cbn [a_add a_zero float64].
  induction k as [|k IH]; cbn [repeat fold_left].
  - reflexivity.
  - change (0 + 0) with 0. exact IH.
Qed.

Lemma square_self_error (A : list float) :
  Forall (fun a => is_finite a = true) A ->
  square float64 (zip_with sub A A) = repeat 0 (length A).
Proof.
  intros H. rewrite zip_with_diag. unfold square. rewrite map_map.
  induction H as [|a A Ha _ IH]; cbn [map repeat length a_mul float64].
  - reflexivity.
  - rewrite (F64Facts.sub_diag a Ha). f_equal. exact IH.
Qed.

Lemma zip_with_repeat_l {A B C : Type} (f : A -> B -> C) a (ys : list B) :
  zip_with f (repeat a (length ys)) ys = map (f a) ys.
Proof.
  unfold zip_with. induction ys as [|b ys IH]; cbn [length repeat combine map fst snd].
  - reflexivity.
  - f_equal. exact IH.
Qed.

Lemma zip_with_repeat_r {A B C : Type} (f : A -> B -> C) (xs : list A) b :
  zip_with f xs (repeat b (length xs)) = map (fun a => f a b) xs.
Proof.
  unfold zip_with. induction xs as [|a xs IH]; cbn [length repeat combine map fst snd].
  - reflexivity.
  - f_equal. exact IH.
Qed.

(** ** Sums that may be reordered *)

Lemma fold_left_perm {T : Type} (f : T -> T -> T) (l l' : list T) :
  (forall u v w, f (f u v) w = f (f u w) v) ->
  Permutation l l' -> forall acc, fold_left f l acc = fold_left f l' acc.
Proof.
  intros Hf HP. induction HP as [|a l l' _ IH|a b l|l l' l'' _ IH1 _ IH2];
    intros acc; cbn [fold_left].
  - reflexivity.
  - apply IH.
  - now rewrite Hf.
  - now rewrite IH1.
Qed.

Lemma error_equal_length {T : Type} (ops : arith T) (A B : list T) :
  length A = length B -> error ops A B = Ok (zip_with (a_sub ops) A B).
Proof.
  intros H. unfold error, broadcast1. now rewrite H, Nat.eqb_refl.
Qed.

(** ** NaN and sign in binary64 *)

Lemma is_nan_eq v : is_nan v = true -> v = nan.
Proof.
  rewrite F64Facts.is_nan_spec. intro H. apply Prim2SF_inj.
  destruct (Prim2SF v); try discriminate. reflexivity.
Qed.

Lemma add_nan_l v : nan + v = nan.
Proof. apply Prim2SF_inj. rewrite add_spec. reflexivity. Qed.

Lemma add_nan_r v : v + nan = nan.
Proof.
  apply Prim2SF_inj. rewrite add_spec.
  change (Prim2SF nan) with S754_nan. destruct (Prim2SF v); reflexivity.
Qed.

Lemma sub_nan_l v : nan - v = nan.
Proof. apply Prim2SF_inj. rewrite sub_spec. reflexivity. Qed.

Lemma sub_nan_r v : v - nan = nan.
Proof.
  apply Prim2SF_inj. rewrite sub_spec.
  change (Prim2SF nan) with S754_nan. destruct (Prim2SF v); reflexivity.
Qed.

Lemma mul_nan_l v : nan * v = nan.
Proof. apply Prim2SF_inj. rewrite mul_spec. reflexivity. Qed.

Lemma mul_nan_r v : v * nan = nan.
Proof.
  apply Prim2SF_inj. rewrite mul_spec.
  change (Prim2SF nan) with S754_nan. destruct (Prim2SF v); reflexivity.
Qed.

Lemma div_nan_l v : nan / v = nan.
Proof. apply Prim2SF_inj. rewrite div_spec. reflexivity. Qed.

Lemma sqrt_nan : sqrt nan = nan.
Proof. reflexivity. Qed.

Lemma abs_nan : abs nan = nan.
Proof. reflexivity. Qed.

(** A sum that meets a NaN is NaN, whatever comes before and after. *)
Lemma fold_add_nan (xs : list float) : fold_left add xs nan = nan.
Proof.
  induction xs as [|x xs IH]; [reflexivity|].
  cbn [fold_left]. rewrite add_nan_l. exact IH.
Qed.

Lemma np_sum_nan (xs : list float) :
  In nan xs -> np_sum float64 xs = nan.
Proof.
  unfold np_sum. cbn [a_add a_zero float64]. generalize 0.
  induction xs as [|x xs IH]; intros acc H; [destruct H|].
  cbn [fold_left]. destruct H as [->|H].
  - rewrite add_nan_r. apply fold_add_nan.
  - apply IH, H.
Qed.

Lemma mean_nan (xs : list float) : In nan xs -> mean float64 xs = nan.
Proof.
  intro H. unfold mean. rewrite (np_sum_nan xs H). cbn [a_div float64].
  apply div_nan_l.
Qed.

(** The rounded square root carries no minus sign, except on [-0]. *)
Lemma round_aux_nonneg m e l :
  let r := binary_round_aux prec emax false m e l in
  F64.sf_is_nan r = true \/ SFleb (S754_zero false) r = true.
Proof.
  cbv zeta. unfold binary_round_aux.
  destruct (shr_fexp prec emax m e l) as [r1 e1].
  cbv zeta.
  destruct (shr_fexp prec emax (round_nearest_even (shr_m r1) (loc_of_shr_record r1)) e1 loc_Exact) as [r2 e2].
  destruct (shr_m r2) as [|p|p]; [right; reflexivity| |left; reflexivity].
  destruct (e2 <=? emax - prec)%Z; right; reflexivity.
Qed.

Lemma sqrt_nonneg v : is_nan (sqrt v) = true \/ (0 <=? sqrt v) = true.
Proof.
  rewrite F64Facts.is_nan_spec, leb_spec, sqrt_spec, F64Facts.Prim2SF_zero.
  unfold SF64sqrt.
  destruct (Prim2SF v) as [s|s| |s m e]; cbn [SFsqrt].
  - destruct s; right; reflexivity.
  - destruct s; [left|right]; reflexivity.
  - left; reflexivity.
  - destruct s; [left; reflexivity|].
    destruct (SFsqrt_core_binary prec emax (Zpos m) e) as [[mz ez] lz].
    apply round_aux_nonneg.
Qed.

(** ** [rmse] on series with missing values *)

Lemma has_nan_In xs : has_nan xs -> In nan xs.
Proof.
  unfold has_nan. rewrite Exists_exists. intros [v [Hin Hv]].
  rewrite <- (is_nan_eq v Hv). exact Hin.
Qed.

Lemma In_zip_with_l {A B C : Type} (f : A -> B -> C) a xs ys :
  length xs = length ys -> In a xs -> exists b, In (f a b) (zip_with f xs ys).
Proof.
  revert ys. induction xs as [|x xs IH]; intros [|y ys] E H;
    try discriminate; [destruct H|].
  destruct H as [->|H].
  - exists y. left. reflexivity.
  - injection E as E. destruct (IH ys E H) as [b Hb]. exists b. right. exact Hb.
Qed.

Lemma In_zip_with_r {A B C : Type} (f : A -> B -> C) b xs ys :
  length xs = length ys -> In b ys -> exists a, In (f a b) (zip_with f xs ys).
Proof.
  revert ys. induction xs as [|x xs IH]; intros [|y ys] E H;
    try discriminate; [destruct H|].
  destruct H as [->|H].
  - exists x. left. reflexivity.
  - injection E as E. destruct (IH ys E H) as [a Ha]. exists a. right. exact Ha.
Qed.

(** The differences of two broadcast series of which one holds a NaN hold a
    NaN, or there are no differences at all. *)
Lemma error_nan (A B diff : list float) :
  In nan A \/ In nan B ->
  error float64 A B = Ok diff -> In nan diff \/ diff = [].
Proof.
  intros H. unfold error, broadcast1. cbn [a_sub float64].
  destruct (Nat.eqb_spec (length A) (length B)) as [E|E].
  - intros [= <-]. left. destruct H as [H|H].
    + destruct (In_zip_with_l sub nan A B E H) as [b Hb].
      rewrite sub_nan_l in Hb. exact Hb.
    + destruct (In_zip_with_r sub nan A B E H) as [a Ha].
      rewrite sub_nan_r in Ha. exact Ha.
  - destruct A as [|a [|a' A]].
    + destruct B as [|b [|b' B]]; try discriminate.
      intros [= <-]. right. reflexivity.
    + intros [= <-]. destruct H as [[->|[]]|H].
      * destruct B as [|b B]; [right; reflexivity|].
        left. left. apply sub_nan_l.
      * left. apply (in_map (sub a)) in H. rewrite sub_nan_r in H. exact H.
    + destruct B as [|b [|b' B]]; try discriminate.
      intros [= <-]. left. destruct H as [H|[->|[]]].
      * apply (in_map (fun x => x - b)) in H. rewrite sub_nan_l in H. exact H.
      * left. apply sub_nan_r.
Qed.

Lemma rmse_of_error (A B diff : list float) :
  error float64 A B = Ok diff ->
  rmse A B = Ok (sqrt (mean float64 (square float64 diff))).
Proof. intro H. unfold rmse, rmse_over. rewrite H. reflexivity. Qed.

Lemma rmse_nan_any (A B : list float) (v : float) :
  has_nan A \/ has_nan B -> rmse A B = Ok v -> v = nan.
Proof.
  intros H Hv.
  assert (H' : In nan A \/ In nan B)
    by (destruct H as [H|H]; [left|right]; apply has_nan_In, H).
  destruct (error float64 A B) as [diff|e] eqn:Ed.
  - rewrite (rmse_of_error A B diff Ed) in Hv.
    replace v with (sqrt (mean float64 (square float64 diff))) by congruence.
    destruct (error_nan A B diff H' Ed) as [Hin| ->].
    + rewrite mean_nan; [reflexivity|].
      unfold square. cbn [a_mul float64].
      apply (in_map (fun e => e * e)) in Hin. rewrite mul_nan_l in Hin. exact Hin.
    + reflexivity.
  - unfold rmse, rmse_over in Hv. rewrite Ed in Hv. discriminate Hv.
Qed.

(** [rmse] can raise nothing but the broadcast error. *)
Lemma rmse_raises_broadcast (A B : list float) (e : np_error) :
  rmse A B = Raise e -> e = ValueError_broadcast.
Proof.
  unfold rmse, rmse_over, error, broadcast1.
  destruct (length A =? length B)%nat; [discriminate|].
  destruct A as [|a [|a' A]], B as [|b [|b' B]]; try discriminate;
    cbn [bind]; congruence.
Qed.

Lemma rmse_equal_length (A B : list float) :
  length A = length B -> exists v, rmse A B = Ok v.
Proof.
  intro E. unfold rmse, rmse_over. rewrite (error_equal_length float64 A B E).
  cbn [bind]. eexists. reflexivity.
Qed.

(** ** Equality of floats, and positions in row-major order *)

Lemma lex3_eq a b : F64.lex3 a b = Eq -> a = b.
Proof.
  destruct a as [[a1 a2] a3], b as [[b1 b2] b3]. unfold F64.lex3.
  destruct (Z.compare_spec a1 b1) as [E1|?|?]; try discriminate.
  destruct (Z.compare_spec a2 b2) as [E2|?|?]; try discriminate.
  destruct (Z.compare_spec a3 b3) as [E3|?|?]; try discriminate.
  intros _. now subst.
Qed.

Lemma eqb_sym_true a b : (a =? b) = true -> (b =? a) = true.
Proof.
  rewrite !F64Facts.eqb_char. intros (Ha & Hb & E).
  repeat split; trivial. apply lex3_eq in E. rewrite E. apply F64Facts.lex3_refl.
Qed.

Lemma eqb_trans a b c : (a =? b) = true -> (b =? c) = true -> (a =? c) = true.
Proof.
  rewrite !F64Facts.eqb_char. intros (Ha & Hb & E1) (_ & Hc & E2).
  repeat split; trivial. apply lex3_eq in E1. now rewrite E1.
Qed.

Lemma row_major_le_index i j i' j' n :
  (j < n)%nat -> (j' < n)%nat ->
  row_major_le i j i' j' -> (i * n + j <= i' * n + j')%nat.
Proof. intros Hj Hj' [H|[-> H]]; nia. Qed.

(** ** The distance of a cell 360 degrees of longitude away *)

(** Half of 360 degrees in radians, as the code computes it, is the float
    [np.pi]. *)
Lemma half_turn : deg2rad * 360 / 2 = np_pi.
Proof. reflexivity. Qed.

Lemma haversine_spec_wrap (L : Libm) (lat1 lon1 lon : float) :
  np_sin L 0 = 0 -> is_finite lat1 = true -> abs (lon - lon1) = 360 ->
  haversine_spec L lat1 lon1 lat1 lon
  = let a := 0 + np_cos L (deg2rad * lat1) * np_cos L (deg2rad * lat1)
                 * (np_sin L np_pi * np_sin L np_pi) in
    6373000 * (2 * np_arctan2 L (sqrt a) (sqrt (1 - a))).
Proof.
  intros Hsin Hlat Hlon. unfold haversine_spec. cbv zeta.
  rewrite (F64Facts.sub_diag lat1 Hlat), Hlon.
  change (deg2rad * abs 0 / 2) with 0. rewrite Hsin, half_turn.
  reflexivity.
Qed.

(** ** Identical series that hold an infinity or a NaN

    [x - x] is NaN when [x] is not finite, and the NaN goes through the
    square, the sum, the division and the square root. *)

Lemma sub_diag_not_finite a : is_finite a = false -> a - a = nan.
Proof.
  rewrite F64Facts.is_finite_spec. intro H. apply Prim2SF_inj.
  rewrite sub_spec. change (Prim2SF nan) with S754_nan.
  destruct (Prim2SF a) as [s|s| |s m e]; try discriminate.
  - destruct s; reflexivity.
  - reflexivity.
Qed.

Lemma rmse_self_not_finite (A : list float) :
  Exists (fun a => is_finite a = false) A -> rmse A A = Ok nan.
Proof.
  intro H.
  rewrite (rmse_of_error A A (zip_with sub A A))
    by (apply (error_equal_length float64); reflexivity).
  f_equal. rewrite mean_nan; [reflexivity|].
  apply Exists_exists in H. destruct H as [a [Hin Ha]].
  rewrite zip_with_diag. unfold square. cbn [a_mul float64]. rewrite map_map.
  apply (in_map (fun a => (a - a) * (a - a))) in Hin.
  rewrite (sub_diag_not_finite a Ha), mul_nan_l in Hin. exact Hin.
Qed.

(** * Part III: the claims *)

(** ** NearestPointLocator *)



(** The specification's example resolves to column 1. *)
Example lansing_nearest :
  lat_lon_2D_index SoftLibm.libm lansing_lat lansing_lon klan_lat klan_lon
  = Ok (0%nat, 1%nat).
Proof. vm_compute. reflexivity. Qed.




(** A target half way between two cells: both are at the same distance and
    the first one is returned. *)
Example tie_equidistant :
  (cell_distance SoftLibm.libm tie_lat tie_lon 0 0 0 0
   =? cell_distance SoftLibm.libm tie_lat tie_lon 0 0 0 1) = true.
Proof. vm_compute. reflexivity. Qed.

Example tie_nearest :
  lat_lon_2D_index SoftLibm.libm tie_lat tie_lon 0 0 = Ok (0%nat, 0%nat).
Proof. vm_compute. reflexivity. Qed.


(** C10.  On a non-empty grid of shape [(m, n)] the returned index is in
    bounds, [row < m] and [column < n], so indexing either grid, or any
    array of the same shape, at the returned index stays inside its data. *)
Theorem lat_lon_2D_index_in_bounds (L : Libm) (y x : ndarray) (lat1 lon1 : float)
    (m n : nat) :
  wf y -> wf x -> shape y = (m, n) -> shape x = (m, n) -> (0 < m * n)%nat ->
  exists i j,
    lat_lon_2D_index L y x lat1 lon1 = Ok (i, j) /\
    (i < m)%nat /\ (j < n)%nat /\
    forall z, wf z -> shape z = (m, n) -> (i * cols z + j < length (data z))%nat.
Proof.
  intros Wy Wx Sy Sx Hmn.
  destruct (locator_cells L y x lat1 lon1 m n Wy Wx Sy Sx Hmn)
    as (i & j & E & Hi & Hj & _).
  exists i, j. repeat split; trivial.
  intros z Wz Sz. unfold wf, size, rows, cols in *. rewrite Sz in *.
  cbn [fst snd] in *. rewrite Wz. now apply rowmajor_lt.
Qed.

Lemma lat_lon_2D_index_in_bounds_witness :
  exists i j,
    lat_lon_2D_index SoftLibm.libm lansing_lat lansing_lon klan_lat klan_lon
    = Ok (i, j) /\
    (i < 1)%nat /\ (j < 2)%nat /\
    forall z, wf z -> shape z = (1, 2)%nat -> (i * cols z + j < length (data z))%nat.
Proof.
  apply (lat_lon_2D_index_in_bounds SoftLibm.libm lansing_lat lansing_lon
           klan_lat klan_lon 1 2); try reflexivity. cbn. lia.
Defined.

(** C5, as the code behaves.  On a grid that contains a cell whose latitude
    and longitude equal the (finite) target exactly, the haversine distance
    computed at that cell is exactly 0, and the locator returns the first
    cell in row-major order whose computed distance is zero: the distance at
    the returned index is zero, no cell before it has distance zero, and it
    is the matching cell itself unless an earlier cell is also at computed
    distance zero.  This holds when no computed distance is negative or
    NaN, with a libm that returns what C99 fixes at the arguments involved
    ([sin 0 = 0], [atan2(0, 1) = 0], a cosine in [[-1, 1]]). *)
Theorem lat_lon_2D_index_exact_match (L : Libm) (y x : ndarray)
    (lat1 lon1 : float) (m n i j : nat) :
  wf y -> wf x -> shape y = (m, n) -> shape x = (m, n) ->
  (i < m)%nat -> (j < n)%nat ->
  np_sin L 0 = 0 -> np_arctan2 L 0 1 = 0 ->
  (abs (np_cos L (deg2rad * lat1)) <=? 1) = true ->
  is_finite lat1 = true -> is_finite lon1 = true ->
  get2 y i j = lat1 -> get2 x i j = lon1 ->
  (forall i' j', (i' < m)%nat -> (j' < n)%nat ->
     (0 <=? cell_distance L y x lat1 lon1 i' j') = true) ->
  cell_distance L y x lat1 lon1 i j = 0 /\
  exists i0 j0,
    lat_lon_2D_index L y x lat1 lon1 = Ok (i0, j0) /\
    (i0 < m)%nat /\ (j0 < n)%nat /\
    (cell_distance L y x lat1 lon1 i0 j0 =? 0) = true /\
    (forall i' j', (i' < m)%nat -> (j' < n)%nat ->
       (i' * n + j' < i0 * n + j0)%nat ->
       (cell_distance L y x lat1 lon1 i' j' =? 0) = false) /\
    row_major_le i0 j0 i j /\
    ((forall i' j', (i' < m)%nat -> (j' < n)%nat -> (i' * n + j' < i * n + j)%nat ->
        (cell_distance L y x lat1 lon1 i' j' =? 0) = false) ->
     i0 = i /\ j0 = j).
Proof.
  intros Wy Wx Sy Sx Hi Hj Hsin Hatan Hcos Hlat Hlon Ey Ex Hnonneg.
  assert (H0 : cell_distance L y x lat1 lon1 i j = 0).
  { unfold cell_distance. rewrite Ey, Ex. now apply haversine_spec_self. }
  split; [exact H0|].
  assert (Hmn : (0 < m * n)%nat) by nia.
  destruct (locator_cells L y x lat1 lon1 m n Wy Wx Sy Sx Hmn)
    as (i0 & j0 & E & Hi0 & Hj0 & _ & Hleast & Hfirst).
  assert (Hnn : forall i' j', (i' < m)%nat -> (j' < n)%nat ->
            is_nan (cell_distance L y x lat1 lon1 i' j') = false).
  { intros i' j' Hi' Hj'. eapply F64Facts.leb_is_nan_r, Hnonneg; assumption. }
  assert (Hz : (cell_distance L y x lat1 lon1 i0 j0 =? 0) = true).
  { apply F64Facts.leb_antisym; [|now apply Hnonneg].
    rewrite <- H0. now apply Hleast. }
  assert (Hle : row_major_le i0 j0 i j).
  { apply Hfirst; trivial. rewrite H0.
    apply F64Facts.leb_antisym; [now apply Hnonneg|].
    apply F64Facts.eqb_leb, Hz. }
  assert (Hnone : forall i' j', (i' < m)%nat -> (j' < n)%nat ->
            (i' * n + j' < i0 * n + j0)%nat ->
            (cell_distance L y x lat1 lon1 i' j' =? 0) = false).
  { intros i' j' Hi' Hj' Hlt.
    destruct (cell_distance L y x lat1 lon1 i' j' =? 0) eqn:Ez; [|reflexivity].
    exfalso.
    assert (Heq : (cell_distance L y x lat1 lon1 i' j'
                   =? cell_distance L y x lat1 lon1 i0 j0) = true)
      by (apply (eqb_trans _ 0); [exact Ez|apply eqb_sym_true, Hz]).
    pose proof (row_major_le_index _ _ _ _ n Hj0 Hj'
                  (Hfirst i' j' Hi' Hj' Heq)) as C.
    lia. }
  exists i0, j0. split; [exact E|]. split; [exact Hi0|]. split; [exact Hj0|].
  split; [exact Hz|]. split; [exact Hnone|]. split; [exact Hle|].
  intros Hbefore.
  assert (Ek : (i0 * n + j0 = i * n + j)%nat).
  { destruct (Nat.eq_dec (i0 * n + j0) (i * n + j)) as [Ek|Ek]; trivial.
    exfalso. rewrite Hbefore in Hz; [discriminate|assumption|assumption|].
    destruct Hle as [Hlt|[-> Hlt]]; nia. }
  split.
  - rewrite <- (rowmajor_div i0 j0 n Hj0), Ek. now apply rowmajor_div.
  - rewrite <- (rowmajor_mod i0 j0 n Hj0), Ek. now apply rowmajor_mod.
Qed.

Lemma lat_lon_2D_index_exact_match_witness :
  cell_distance SoftLibm.libm exact_lat exact_lon klan_lat klan_lon 0 1 = 0 /\
  exists i0 j0,
    lat_lon_2D_index SoftLibm.libm exact_lat exact_lon klan_lat klan_lon
    = Ok (i0, j0) /\
    (i0 < 1)%nat /\ (j0 < 3)%nat /\
    (cell_distance SoftLibm.libm exact_lat exact_lon klan_lat klan_lon i0 j0 =? 0)
    = true /\
    (forall i' j', (i' < 1)%nat -> (j' < 3)%nat ->
       (i' * 3 + j' < i0 * 3 + j0)%nat ->
       (cell_distance SoftLibm.libm exact_lat exact_lon klan_lat klan_lon i' j' =? 0)
       = false) /\
    row_major_le i0 j0 0 1 /\
    ((forall i' j', (i' < 1)%nat -> (j' < 3)%nat -> (i' * 3 + j' < 0 * 3 + 1)%nat ->
        (cell_distance SoftLibm.libm exact_lat exact_lon klan_lat klan_lon i' j' =? 0)
        = false) ->
     i0 = 0%nat /\ j0 = 1%nat).
Proof.
  apply (lat_lon_2D_index_exact_match SoftLibm.libm exact_lat exact_lon
           klan_lat klan_lon 1 3 0 1); try reflexivity; try lia.
  intros i' j' Hi' Hj'.
  destruct i' as [|i']; [|lia].
  destruct j' as [|[|[|j']]]; try lia; vm_compute; reflexivity.
Defined.

(** The grid of the witness resolves to the matching cell. *)
Example exact_match_nearest :
  lat_lon_2D_index SoftLibm.libm exact_lat exact_lon klan_lat klan_lon
  = Ok (0%nat, 1%nat).
Proof. vm_compute. reflexivity. Qed.

(** C5 as stated fails when an earlier cell is so close to the target that
    its distance rounds to zero: the second cell of [near_lat], [near_lon]
    is the target (0 N, 0 E) itself, the first one lies 1e-200 degrees east
    of it; [sin] of so small an angle is the angle, its square underflows
    to 0, both distances are 0, and the first cell is returned. *)
Lemma exact_match_not_returned :
  get2 near_lat 0 1 = 0 /\ get2 near_lon 0 1 = 0 /\
  (get2 near_lon 0 0 =? 0) = false /\
  lat_lon_2D_index SoftLibm.libm near_lat near_lon 0 0 = Ok (0%nat, 0%nat).
Proof.
  repeat split; vm_compute; reflexivity.
Qed.




(** C3, as the code behaves.  An empty grid makes the locator fail: its
    [argmin] raises ValueError.  Empty series do not make [rmse] fail: the
    mean of no elements is [0 / 0], and [rmse] returns NaN. *)
Theorem empty_inputs (L : Libm) (y x : ndarray) (lat1 lon1 : float) (m n : nat) :
  wf y -> wf x -> shape y = (m, n) -> shape x = (m, n) -> (m * n = 0)%nat ->
  lat_lon_2D_index L y x lat1 lon1 = Raise ValueError_empty_argmin /\
  rmse [] [] = Ok nan.
Proof.
  intros Wy Wx Sy Sx Hmn. split; [|reflexivity].
  unfold lat_lon_2D_index.
  rewrite (distances_haversine L y x lat1 lon1 m n Wy Wx Sy Sx). cbn [bind data].
  unfold wf, size, rows, cols in Wy. rewrite Sy in Wy. cbn [fst snd] in Wy.
  destruct (data y) as [|v l]; [reflexivity|]. cbn [length] in Wy. lia.
Qed.

Lemma empty_inputs_witness :
  lat_lon_2D_index SoftLibm.libm empty_grid empty_grid klan_lat klan_lon
  = Raise ValueError_empty_argmin /\
  rmse [] [] = Ok nan.
Proof.
  apply (empty_inputs SoftLibm.libm empty_grid empty_grid klan_lat klan_lon 0 3);
    reflexivity.
Defined.

(** C3 as stated fails for the series: [rmse] of two empty series returns a
    value, NaN, and raises nothing. *)
Lemma rmse_empty_returns :
  rmse [] [] = Ok nan /\ ~ (exists e, rmse [] [] = Raise e).
Proof.
  split; [reflexivity|]. intros [e H]. discriminate H.
Qed.

(** ** ErrorMetrics *)

(** C2, as the code behaves.  Two series of unequal length make [rmse] fail
    with the broadcast ValueError only when neither has length 1; a
    length-1 series is stretched over the other one and a result is
    returned. *)
Theorem rmse_mismatch (A B : list float) :
  length A <> length B ->
  (length A <> 1%nat -> length B <> 1%nat -> rmse A B = Raise ValueError_broadcast) /\
  (forall a, A = [a] -> rmse A B = rmse (repeat a (length B)) B) /\
  (forall b, B = [b] -> rmse A B = rmse A (repeat b (length A))).
Proof.
  intros E. unfold rmse, rmse_over, error, broadcast1.
  apply Nat.eqb_neq in E as Eb. rewrite Eb. repeat split.
  - intros HA HB.
    destruct A as [|a [|a' A]], B as [|b [|b' B]]; cbn [length] in *;
      try congruence; reflexivity.
  - intros a ->. rewrite repeat_length, Nat.eqb_refl, zip_with_repeat_l.
    reflexivity.
  - intros b ->. rewrite repeat_length, Nat.eqb_refl, zip_with_repeat_r.
    destruct A as [|a [|a' A]]; cbn [length] in *; try congruence; reflexivity.
Qed.

Lemma rmse_mismatch_witness : rmse [1; 2] [1; 2; 3] = Raise ValueError_broadcast.
Proof.
  apply (rmse_mismatch [1; 2] [1; 2; 3]); cbn; lia.
Defined.

(** C2 as stated fails: a series of length 1 against one of length 3 is
    broadcast, and [rmse] returns 2. *)
Lemma rmse_broadcasts_length_one :
  length [2] <> length series_zero /\ rmse [2] series_zero = Ok 2.
Proof.
  split; [cbn; lia|reflexivity].
Qed.

(** C6.  For two series of equal length, [rmse] gives the same result with
    the arguments swapped, although the elementwise error changes sign:
    each swapped error is the negation of the original one, except that two
    equal finite numbers differ by [+0] in both orders. *)
Theorem rmse_swap (A B : list float) :
  length A = length B ->
  rmse A B = rmse B A /\
  exists e e',
    error float64 A B = Ok e /\ error float64 B A = Ok e' /\
    Forall2 (fun u v => v = - u \/ (u = 0 /\ v = 0)) e e'.
Proof.
  intros H. split; [apply rmse_swap_any|].
  exists (zip_with sub A B), (zip_with sub B A).
  rewrite !error_equal_length by congruence. repeat split.
  clear H. revert B. unfold zip_with.
  induction A as [|a A IH]; intros [|b B]; cbn [combine map fst snd];
    try constructor.
  - apply F64Facts.sub_swap_sign.
  - apply IH.
Qed.

Lemma rmse_swap_witness :
  rmse series_a series_zero = rmse series_zero series_a /\
  exists e e',
    error float64 series_a series_zero = Ok e /\
    error float64 series_zero series_a = Ok e' /\
    Forall2 (fun u v => v = - u \/ (u = 0 /\ v = 0)) e e'.
Proof.
  apply (rmse_swap series_a series_zero). reflexivity.
Defined.

(** C7, as the code behaves.  For a non-empty series of finite numbers,
    [rmse(A, A)] is exactly 0.  (The length bound holds for every array.) *)
Theorem rmse_self (A : list float) :
  A <> [] ->
  Forall (fun a => is_finite a = true) A ->
  (Z.of_nat (length A) < 2 ^ 63)%Z ->
  rmse A A = Ok 0.
Proof.
  intros Hne Hfin Hlen.
  unfold rmse, rmse_over, error, broadcast1. rewrite Nat.eqb_refl.
  cbn [bind a_sub float64]. f_equal.
  rewrite square_self_error by assumption.
  unfold mean. rewrite np_sum_zeros, repeat_length.
  cbn [a_div a_sqrt a_of_count float64].
  rewrite F64Facts.zero_div_count; trivial.
  destruct A; [congruence|cbn; lia].
Qed.

Lemma rmse_self_witness : rmse [1; 2; 3] [1; 2; 3] = Ok 0.
Proof.
  apply (rmse_self [1; 2; 3]).
  - discriminate.
  - repeat constructor.
  - cbn. lia.
Defined.

(** C7 as stated fails on a series that holds an infinity: the error
    [inf - inf] is NaN, and so is the result.  That is so for every series
    that holds an infinity or a NaN ([rmse_self_not_finite]). *)
Lemma rmse_self_infinite :
  [infinity] <> [] /\ rmse [infinity] [infinity] = Ok nan.
Proof.
  split; [discriminate|reflexivity].
Qed.

(** The specification's examples. *)
Example rmse_example_zero : rmse [1; 2; 3] [1; 2; 3] = Ok 0.
Proof. reflexivity. Qed.

Example rmse_example_two : rmse [2; 2; 2] [0; 0; 0] = Ok 2.
Proof. reflexivity. Qed.

(** C8, as the code behaves.  [rmse] is a function of its two arguments: it
    builds new arrays and changes neither input.  Under one permutation of
    both series the squared errors are permuted the same way, and the
    result is the same whenever the additions of the sum can be reordered,
    as they can in exact arithmetic.  In [float64] they cannot: see
    [rmse_order_dependent]. *)
Theorem rmse_permutation {T : Type} (ops : arith T) (A B A' B' : list T) :
  length A = length B -> length A' = length B' ->
  Permutation (combine A B) (combine A' B') ->
  (exists e e',
     error ops A B = Ok e /\ error ops A' B' = Ok e' /\
     Permutation (square ops e) (square ops e')) /\
  ((forall u v w, a_add ops (a_add ops u v) w = a_add ops (a_add ops u w) v) ->
   rmse_over ops A' B' = rmse_over ops A B).
Proof.
  intros H H' HP.
  assert (HS : Permutation (square ops (zip_with (a_sub ops) A B))
                           (square ops (zip_with (a_sub ops) A' B'))).
  { unfold square, zip_with. now do 2 apply Permutation_map. }
  split.
  - exists (zip_with (a_sub ops) A B), (zip_with (a_sub ops) A' B').
    rewrite !error_equal_length by assumption. auto.
  - intros Hadd. unfold rmse_over.
    rewrite !error_equal_length by assumption. cbn [bind]. do 2 f_equal.
    unfold mean, np_sum.
    rewrite (fold_left_perm (a_add ops) _ _ Hadd HS).
    now rewrite (Permutation_length HS).
Qed.

Module ExactArith.

Import Stdlib.Reals.Reals.

(** In exact arithmetic the reversed series has the same RMSE. *)
Lemma rmse_permutation_witness :
  rmse_over exact exact_a_rev exact_zero = rmse_over exact exact_a exact_zero.
Proof.
  apply (rmse_permutation exact exact_a exact_zero exact_a_rev exact_zero
           eq_refl eq_refl).
  - exact (Permutation_rev (combine exact_a exact_zero)).
  - intros u v w. cbn [a_add exact]. ring.
Defined.

End ExactArith.

(** C8 as stated fails in [float64]: reversing both series changes the
    order of the rounded additions, and the result. *)
Lemma rmse_order_dependent :
  length series_a = length series_zero /\
  Permutation (combine series_a series_zero) (combine series_a_rev series_zero) /\
  rmse series_a_rev series_zero <> rmse series_a series_zero.
Proof.
  split; [reflexivity|].
  split; [exact (Permutation_rev (combine series_a series_zero))|].
  intros H.
  assert (X : match rmse series_a_rev series_zero, rmse series_a series_zero with
              | Ok u, Ok v => Leibniz.eqb u v
              | _, _ => false
              end = false) by (vm_compute; reflexivity).
  rewrite H in X. vm_compute in X. discriminate X.
Qed.

Example rmse_series_a : rmse series_a series_zero = Ok 1.7368553960150703.
Proof. vm_compute. reflexivity. Qed.

Example rmse_series_a_rev : rmse series_a_rev series_zero = Ok 1.7368553960150701.
Proof. vm_compute. reflexivity. Qed.

(** * Part IV: missing values, mismatched shapes, and the cells around
      the two functions *)

(** X1: a NaN anywhere in the predictions or the targets makes the RMSE
    NaN. *)
Theorem rmse_nan (A B : list float) :
  has_nan A \/ has_nan B ->
  (length A = length B -> rmse A B = Ok nan) /\
  (forall v, rmse A B = Ok v -> v = nan).
Proof.
  intro H. split.
  - intro E. destruct (rmse_equal_length A B E) as [v Hv].
    rewrite Hv. f_equal. apply (rmse_nan_any A B v H Hv).
  - intros v. apply rmse_nan_any, H.
Qed.

Lemma rmse_nan_witness :
  (length [1; nan; 3] = length [1; 2; 3] -> rmse [1; nan; 3] [1; 2; 3] = Ok nan) /\
  (forall v, rmse [1; nan; 3] [1; 2; 3] = Ok v -> v = nan).
Proof.
  apply (rmse_nan [1; nan; 3] [1; 2; 3]).
  left. right. left. reflexivity.
Defined.

(** X2: the RMSE is never negative: whatever [rmse] returns is NaN or not
    below zero. *)
Theorem rmse_nonnegative (A B : list float) (v : float) :
  rmse A B = Ok v -> is_nan v = true \/ (0 <=? v) = true.
Proof.
  unfold rmse, rmse_over. destruct (error float64 A B) as [diff|e];
    [|discriminate]. cbn [bind a_sqrt float64]. intros [= <-].
  apply sqrt_nonneg.
Qed.

Lemma rmse_nonnegative_witness :
  is_nan 2 = true \/ (0 <=? 2) = true.
Proof.
  apply (rmse_nonnegative [2; 2; 2] [0; 0; 0] 2). reflexivity.
Defined.

(** ** The locator on grids of different shapes, and on missing coordinates *)

Lemma bdim_none p q : p <> q -> p <> 1%nat -> q <> 1%nat -> bdim p q = None.
Proof.
  intros H1 H2 H3. unfold bdim.
  destruct (Nat.eqb_spec p q); [contradiction|].
  destruct (Nat.eqb_spec p 1); [contradiction|].
  destruct (Nat.eqb_spec q 1); [contradiction|]. reflexivity.
Qed.

Lemma pw_id (l : list float) m n :
  {| shape := (m, n); data := l |} = pw l m n (fun c => c).
Proof. unfold pw. now rewrite map_id. Qed.

Lemma broadcast2_mismatch f a b :
  bdim (rows a) (rows b) = None \/ bdim (cols a) (cols b) = None ->
  broadcast2 f a b = Raise ValueError_broadcast.
Proof.
  unfold broadcast2. intros [-> | ->]; [reflexivity|].
  destruct (bdim (rows a) (rows b)); reflexivity.
Qed.

(** The haversine formula on a missing latitude or longitude. *)
Lemma haversine_spec_nan (L : Libm) lat1 lon1 lat lon :
  np_sin L nan = nan -> (forall v, np_arctan2 L nan v = nan) ->
  is_nan lat = true \/ is_nan lon = true ->
  haversine_spec L lat1 lon1 lat lon = nan.
Proof.
  intros Hsin Hatan H. unfold haversine_spec.
  assert (Ha : forall u w, (u = nan \/ w = nan) ->
             6373000 * (2 * np_arctan2 L (sqrt (u + w)) (sqrt (1 - (u + w)))) = nan).
  { intros u w Huw.
    assert (E : u + w = nan)
      by (destruct Huw as [-> | ->]; [apply add_nan_l|apply add_nan_r]).
    rewrite E, sqrt_nan, Hatan. reflexivity. }
  apply Ha. destruct H as [H|H]; apply is_nan_eq in H; subst.
  - left. rewrite sub_nan_l, abs_nan, mul_nan_r, div_nan_l, Hsin.
    apply mul_nan_l.
  - right. rewrite sub_nan_l, abs_nan, mul_nan_r, div_nan_l, Hsin, mul_nan_l.
    apply mul_nan_r.
Qed.

(** X3: latitude and longitude grids whose shapes cannot be broadcast together
    (the extents of an axis differ and neither is 1) make the locator raise
    the broadcast ValueError. *)
Theorem lat_lon_2D_index_shape_mismatch (L : Libm) (y x : ndarray)
    (lat1 lon1 : float) (my ny mx nx : nat) :
  wf y -> wf x -> shape y = (my, ny) -> shape x = (mx, nx) ->
  (my <> mx /\ my <> 1%nat /\ mx <> 1%nat) \/
  (ny <> nx /\ ny <> 1%nat /\ nx <> 1%nat) ->
  lat_lon_2D_index L y x lat1 lon1 = Raise ValueError_broadcast.
Proof.
  intros Wy Wx Sy Sx H.
  destruct y as [shy ly], x as [shx lx]. cbn [shape data] in *. subst shy shx.
  unfold wf, size, rows, cols in Wy, Wx. cbn [shape data fst snd] in Wy, Wx.
  unfold lat_lon_2D_index, distances. cbn [shape data].
  rewrite (pw_id ly my ny), (pw_id lx mx nx).
  rewrite (pw_ones _ lx mx nx Wx), (pw_ones _ ly my ny Wy).
  repeat (rewrite ?pw_amap, ?(pw_broadcast2 _ lx 0 mx nx Wx),
            ?(pw_broadcast2 _ ly 0 my ny Wy); cbn [bind]).
  rewrite broadcast2_mismatch; [reflexivity|].
  unfold rows, cols, pw. cbn [shape fst snd].
  destruct H as [[H1 [H2 H3]]|[H1 [H2 H3]]]; [left|right]; now apply bdim_none.
Qed.

Lemma lat_lon_2D_index_shape_mismatch_witness :
  lat_lon_2D_index SoftLibm.libm exact_lat lansing_lon klan_lat klan_lon
  = Raise ValueError_broadcast.
Proof.
  apply (lat_lon_2D_index_shape_mismatch SoftLibm.libm exact_lat lansing_lon
           klan_lat klan_lon 1 3 1 2); try reflexivity.
  right. repeat split; discriminate.
Defined.



(** ** Dictionaries and list comprehensions *)

Lemma dict_set_new {V} (k : String.string) (v : V) (d : dict V) :
  ~ In k (dict_keys d) -> dict_set k v d = d ++ [(k, v)].
Proof.
  induction d as [|[k' v'] d IH]; intro H; [reflexivity|].
  cbn [dict_set]. cbn [dict_keys map fst In] in H.
  destruct (String.eqb_spec k k') as [E|E].
  - exfalso. apply H. left. symmetry. exact E.
  - cbn [app]. f_equal. apply IH. intro C. apply H. right. exact C.
Qed.

Lemma dict_get_in {V} (k : String.string) (v : V) (d : dict V) :
  NoDup (dict_keys d) -> In (k, v) d -> dict_get k d = Done v.
Proof.
  induction d as [|[k' v'] d IH]; intros ND H; [destruct H|].
  cbn [dict_keys map fst] in ND. inversion ND as [|? ? Hnot ND']; subst.
  cbn [dict_get]. destruct H as [H|H].
  - injection H as -> ->. now rewrite String.eqb_refl.
  - destruct (String.eqb_spec k k') as [E|E].
    + exfalso. apply Hnot. subst k'.
      change k with (fst (k, v)). apply in_map, H.
    + apply IH; assumption.
Qed.

Lemma comprehension_map {A B} (f : A -> outcome B) (g : A -> B) (xs : list A) :
  (forall x, In x xs -> f x = Done (g x)) ->
  comprehension f xs = Done (map g xs).
Proof.
  induction xs as [|x xs IH]; intro H; [reflexivity|].
  cbn [comprehension map]. rewrite (H x (or_introl eq_refl)).
  cbn [and_then]. rewrite IH; [reflexivity|].
  intros x' Hx'. apply H. right. exact Hx'.
Qed.

(** Looking up every key of a dictionary, in the order of its keys, gives
    its values in that order and never raises. *)
Lemma dict_values {V} (d : dict V) :
  NoDup (dict_keys d) ->
  comprehension (fun key => dict_get key d) (dict_keys d) = Done (map snd d).
Proof.
  intro ND. unfold dict_keys.
  assert (H : forall l, incl l d ->
            comprehension (fun key => dict_get key d) (map fst l)
            = Done (map snd l)).
  { induction l as [|[k v] l IH]; intro Hl; [reflexivity|].
    cbn [map fst snd comprehension].
    rewrite (dict_get_in k v d ND (Hl _ (or_introl eq_refl))).
    cbn [and_then]. rewrite IH; [reflexivity|].
    intros x Hx. apply Hl. right. exact Hx. }
  apply H, incl_refl.
Qed.

(** ** Member keys *)

Lemma str_inj i j : str i = str j -> i = j.
Proof.
  unfold str. intro H.
  apply (f_equal DecimalString.NilEmpty.uint_of_string) in H.
  rewrite !DecimalString.NilEmpty.usu in H. injection H as H.
  apply (f_equal Nat.of_uint) in H.
  now rewrite !DecimalNat.Unsigned.of_to in H.
Qed.

Lemma member_key_inj i j : member_key i = member_key j -> i = j.
Proof.
  unfold member_key. cbn [String.append]. intro H. injection H as H.
  apply str_inj, H.
Qed.

Lemma NoDup_member_keys members :
  NoDup members -> NoDup (map member_key members).
Proof.
  induction 1 as [|i l Hi ND IH]; cbn [map]; constructor; [|exact IH].
  rewrite in_map_iff. intros [i' [E Hi']].
  apply member_key_inj in E. subst i'. contradiction.
Qed.

(** ** Reading the members *)

Lemma load_fail_stays tp idx members e :
  fold_left (load_step tp idx) members (Fail e) = Fail e.
Proof. induction members as [|i l IH]; [reflexivity|exact IH]. Qed.

Lemma load_members_snoc tp idx l i :
  load_members tp idx (l ++ [i]) = load_step tp idx (load_members tp idx l) i.
Proof. unfold load_members. now rewrite fold_left_app. Qed.

Lemma load_members_done tp idx members (ser : nat -> list float) :
  NoDup members ->
  (forall i, In i members ->
     point_series (tp i) (fst idx) (snd idx) = Done (ser i)) ->
  load_members tp idx members
  = Done (map (fun i => (member_key i, ser i)) members).
Proof.
  induction members as [|i l IH] using rev_ind; intros ND H; [reflexivity|].
  rewrite load_members_snoc.
  assert (ND' : NoDup l /\ ~ In i l).
  { pose proof (NoDup_remove l [] i ND) as Hr.
    now rewrite app_nil_r in Hr. }
  destruct ND' as [NDl Hi].
  rewrite IH; [|exact NDl|intros i' Hi'; apply H, in_or_app; left; exact Hi'].
  unfold load_step. cbn [and_then].
  rewrite (H i) by (apply in_or_app; right; left; reflexivity).
  cbn [and_then]. rewrite dict_set_new.
  - now rewrite map_app.
  - unfold dict_keys. rewrite map_map. cbn [fst]. rewrite in_map_iff.
    intros [i' [E Hi']]. apply member_key_inj in E. subst i'. contradiction.
Qed.

Lemma load_members_fail tp idx members i :
  In i members ->
  point_series (tp i) (fst idx) (snd idx) = Fail IndexError ->
  load_members tp idx members = Fail IndexError.
Proof.
  unfold load_members.
  assert (Hp : forall v a b e, point_series v a b = Fail e -> e = IndexError).
  { intros v a b e. unfold point_series. destruct (shape3 v) as [[nt m] n].
    destruct ((a <? m)%nat && (b <? n)%nat); congruence. }
  assert (G : forall l acc,
            In i l ->
            point_series (tp i) (fst idx) (snd idx) = Fail IndexError ->
            (acc = Fail IndexError \/ exists d, acc = Done d) ->
            fold_left (load_step tp idx) l acc = Fail IndexError).
  { induction l as [|i' l IH]; intros acc Hin Hf Hacc; [destruct Hin|].
    cbn [fold_left]. destruct Hacc as [-> | [d ->]].
    - apply load_fail_stays.
    - unfold load_step at 2. cbn [and_then].
      destruct (point_series (tp i') (fst idx) (snd idx)) as [s|e] eqn:Es.
      + cbn [and_then]. destruct Hin as [->|Hin]; [congruence|].
        apply IH; [exact Hin|exact Hf|right; eexists; reflexivity].
      + cbn [and_then]. rewrite (Hp _ _ _ _ Es). apply load_fail_stays. }
  intros Hin Hf. apply G; [exact Hin|exact Hf|right; eexists; reflexivity].
Qed.

Lemma point_series_in_grid v i j nt m n :
  shape3 v = (nt, m, n) -> (i < m)%nat -> (j < n)%nat ->
  point_series v i j = Done (map (fun t => values3 v t i j) (seq 0 (nt - 8))).
Proof.
  intros S Hi Hj. unfold point_series. rewrite S.
  apply Nat.ltb_lt in Hi, Hj. now rewrite Hi, Hj.
Qed.

(** X5: the index the locator returns for a non-empty grid of shape (m, n) is
    a valid index into a variable with the dimensions (time, m, n): reading
    [v[:-8, idx[0], idx[1]]] raises nothing and gives the values at that
    grid point for all but the last eight times, as many as [vtimes[:-8]]
    has. *)
Theorem point_series_at_nearest {A : Type} (L : Libm) (lat lon : ndarray)
    (lat1 lon1 : float) (m n nt : nat) (v : ncvar) (vtimes : list A) :
  wf lat -> wf lon -> shape lat = (m, n) -> shape lon = (m, n) ->
  (0 < m * n)%nat ->
  shape3 v = (nt, m, n) -> length vtimes = nt ->
  exists i j s,
    lat_lon_2D_index L lat lon lat1 lon1 = Ok (i, j) /\
    point_series v i j = Done s /\
    length s = (nt - 8)%nat /\
    length s = length (drop_last8 vtimes) /\
    forall t, (t < nt - 8)%nat -> nth t s nan = values3 v t i j.
Proof.
  intros Wy Wx Sy Sx Hmn Sv Ht.
  destruct (locator_cells L lat lon lat1 lon1 m n Wy Wx Sy Sx Hmn)
    as [i [j [Hret [Hi [Hj _]]]]].
  exists i, j, (map (fun t => values3 v t i j) (seq 0 (nt - 8))).
  split; [exact Hret|].
  split; [now apply (point_series_in_grid v i j nt m n)|].
  rewrite length_map, length_seq.
  split; [reflexivity|]. split.
  - unfold drop_last8. rewrite length_firstn, Ht. lia.
  - intros t Hlt.
    rewrite (nth_indep _ nan (values3 v 0 i j))
      by (rewrite length_map, length_seq; exact Hlt).
    rewrite (map_nth (fun t => values3 v t i j)), seq_nth by exact Hlt.
    reflexivity.
Qed.

Lemma point_series_at_nearest_witness :
  exists i j s,
    lat_lon_2D_index SoftLibm.libm lansing_lat lansing_lon klan_lat klan_lon
    = Ok (i, j) /\
    point_series (plume_tot_pcp 10 1) i j = Done s /\
    length s = (10 - 8)%nat /\
    length s = length (drop_last8 (seq 0 10)) /\
    forall t, (t < 10 - 8)%nat -> nth t s nan = values3 (plume_tot_pcp 10 1) t i j.
Proof.
  apply (point_series_at_nearest SoftLibm.libm lansing_lat lansing_lon
           klan_lat klan_lon 1 2 10 (plume_tot_pcp 10 1) (seq 0 10));
    try reflexivity. cbn. lia.
Defined.

(** X6: the loop that fills [pcp] keeps one entry per member, in the order of
    the range: no key ['mem'+str(i)] is written twice, and [pcp] looked up
    at the key of member [i] is the series read from the file of member
    [i]. *)
Theorem load_members_lookup (tot_pcp : nat -> ncvar) (idx : nat * nat)
    (members : list nat) (ser : nat -> list float) :
  NoDup members ->
  (forall i, In i members ->
     point_series (tot_pcp i) (fst idx) (snd idx) = Done (ser i)) ->
  exists pcp,
    load_members tot_pcp idx members = Done pcp /\
    dict_keys pcp = map member_key members /\
    NoDup (dict_keys pcp) /\
    forall i, In i members -> dict_get (member_key i) pcp = Done (ser i).
Proof.
  intros ND H.
  exists (map (fun i => (member_key i, ser i)) members).
  assert (K : dict_keys (map (fun i => (member_key i, ser i)) members)
              = map member_key members).
  { unfold dict_keys. rewrite map_map. reflexivity. }
  assert (NK : NoDup (map member_key members))
    by (apply NoDup_member_keys, ND).
  split; [now apply load_members_done|]. split; [exact K|].
  split; [rewrite K; exact NK|].
  intros i Hi. apply dict_get_in; [rewrite K; exact NK|].
  apply (in_map (fun i => (member_key i, ser i))), Hi.
Qed.

Lemma load_members_lookup_witness :
  exists pcp,
    load_members (plume_tot_pcp 10) (0, 1)%nat (seq 1 20) = Done pcp /\
    dict_keys pcp = map member_key (seq 1 20) /\
    NoDup (dict_keys pcp) /\
    forall i, In i (seq 1 20) ->
      dict_get (member_key i) pcp
      = Done (map (fun t => values3 (plume_tot_pcp 10 i) t 0 1) (seq 0 2)).
Proof.
  apply (load_members_lookup (plume_tot_pcp 10) (0, 1)%nat (seq 1 20)
           (fun i => map (fun t => values3 (plume_tot_pcp 10 i) t 0 1) (seq 0 2))).
  - apply seq_NoDup.
  - intros i _. reflexivity.
Defined.

(** X7: a member whose file has a grid that does not contain the index ends
    the loop with an IndexError; no [pcp] is produced. *)
Theorem load_members_index_error (tot_pcp : nat -> ncvar) (idx : nat * nat)
    (members : list nat) (i nt m n : nat) :
  In i members -> shape3 (tot_pcp i) = (nt, m, n) ->
  (m <= fst idx)%nat \/ (n <= snd idx)%nat ->
  load_members tot_pcp idx members = Fail IndexError.
Proof.
  intros Hin S H. apply (load_members_fail tot_pcp idx members i Hin).
  unfold point_series. rewrite S.
  destruct H as [H|H].
  - apply Nat.ltb_ge in H. now rewrite H.
  - apply Nat.ltb_ge in H. rewrite H. now rewrite andb_false_r.
Qed.

Lemma load_members_index_error_witness :
  load_members (plume_tot_pcp 10) (0, 2)%nat (seq 1 20) = Fail IndexError.
Proof.
  apply (load_members_index_error (plume_tot_pcp 10) (0, 2)%nat (seq 1 20)
           1 10 1 2).
  - left. reflexivity.
  - reflexivity.
  - right. cbn. lia.
Defined.

(** ** The accumulated observations *)

Lemma length_cumsum_from xs : forall acc, length (cumsum_from acc xs) = length xs.
Proof. induction xs as [|x xs IH]; intro acc; cbn; [reflexivity|now rewrite IH]. Qed.

Lemma nth_cumsum_from xs :
  forall acc i d, (i < length xs)%nat ->
    nth i (cumsum_from acc xs) d = fold_left add (firstn (S i) xs) acc.
Proof.
  induction xs as [|x xs IH]; intros acc i d Hi; [cbn in Hi; lia|].
  destruct i as [|i]; [reflexivity|].
  cbn [cumsum_from nth]. cbn [length] in Hi.
  rewrite IH by lia. reflexivity.
Qed.

Lemma nan_to_zero_not_nan x : is_nan (nan_to_zero x) = false.
Proof. unfold nan_to_zero. destruct (is_nan x) eqn:E; [reflexivity|exact E]. Qed.

Lemma nan_to_zero_id x : is_nan x = false -> nan_to_zero x = x.
Proof. unfold nan_to_zero. now intros ->. Qed.

Lemma obs_pcp_sum_cons p :
  obs_pcp_sum p
  = 0 :: zip_with (fun x s => if is_nan x then nan else s)
           p (cumsum_from 0 (map nan_to_zero p)).
Proof. reflexivity. Qed.

Lemma length_obs_pcp_sum p : length (obs_pcp_sum p) = S (length p).
Proof.
  rewrite obs_pcp_sum_cons. cbn [length]. f_equal.
  apply length_zip_with. now rewrite length_cumsum_from, length_map.
Qed.

(** The running total at each place of the series: NaN where the hour is
    missing, else the sum of the hours before with missing ones counted as
    0. *)
Lemma nth_obs_pcp_sum p i :
  (i <= length p)%nat ->
  nth i (obs_pcp_sum p) nan
  = if is_nan (nth i (obs_pcp p) 0) then nan
    else fold_left add (map nan_to_zero (firstn i p)) 0.
Proof.
  intro Hi. rewrite obs_pcp_sum_cons. unfold obs_pcp.
  destruct i as [|i]; [reflexivity|]. cbn [nth].
  assert (El : length p = length (cumsum_from 0 (map nan_to_zero p)))
    by now rewrite length_cumsum_from, length_map.
  rewrite (nth_zip_with _ p _ i 0 nan nan El) by lia.
  rewrite nth_cumsum_from by (rewrite length_map; lia).
  now rewrite firstn_map.
Qed.

Lemma length_every_third {A} (d : A) xs :
  length (every_third d xs) = ((length xs + 2) / 3)%nat.
Proof. unfold every_third. now rewrite length_map, length_seq. Qed.

Lemma nth_every_third {A} (d : A) xs k :
  (k < (length xs + 2) / 3)%nat -> nth k (every_third d xs) d = nth (3 * k) xs d.
Proof.
  intro Hk. unfold every_third.
  rewrite (nth_indep _ d ((fun k => nth (3 * k) xs d) 0%nat))
    by now rewrite length_map, length_seq.
  rewrite (map_nth (fun k => nth (3 * k) xs d)), seq_nth by exact Hk.
  reflexivity.
Qed.

Lemma length_obs_03h p : length (obs_pcp_sum_03h p) = S (length p / 3).
Proof.
  unfold obs_pcp_sum_03h. rewrite length_every_third, length_obs_pcp_sum.
  replace (S (length p) + 2)%nat with (length p + 1 * 3)%nat by lia.
  rewrite Nat.div_add by lia. lia.
Qed.

Lemma nth_obs_03h p k :
  (k <= length p / 3)%nat ->
  nth k (obs_pcp_sum_03h p) nan
  = if is_nan (nth (3 * k) (obs_pcp p) 0) then nan
    else fold_left add (map nan_to_zero (firstn (3 * k) p)) 0.
Proof.
  intro Hk. unfold obs_pcp_sum_03h.
  assert (H3 : (3 * k <= length p)%nat).
  { pose proof (Nat.div_mod_eq (length p) 3). lia. }
  rewrite nth_every_third.
  - now apply nth_obs_pcp_sum.
  - rewrite length_obs_pcp_sum.
    replace (S (length p) + 2)%nat with (length p + 1 * 3)%nat by lia.
    rewrite Nat.div_add by lia. lia.
Qed.

Lemma map_nan_to_zero_id p :
  Forall (fun x => is_nan x = false) p -> map nan_to_zero p = p.
Proof.
  induction 1 as [|x l Hx Hl IH]; [reflexivity|].
  cbn [map]. now rewrite IH, nan_to_zero_id.
Qed.

(** X8: the accumulated observations start at 0 and hold one value for the
    start and one for every full three hours of the record: with [N] hourly
    amounts there are [1 + N div 3] values. *)
Theorem obs_pcp_sum_03h_length (precipitation : list float) :
  length (obs_pcp_sum_03h precipitation) = S (length precipitation / 3) /\
  nth 0 (obs_pcp_sum_03h precipitation) nan = 0.
Proof.
  split; [apply length_obs_03h|].
  rewrite nth_obs_03h by lia. reflexivity.
Qed.

(** X9: value [k] of the accumulated observations is the total of the first
    [3 k] hourly amounts, added up in order from 0, where a missing (NaN)
    amount counts as 0; it is NaN itself when the amount of hour [3 k] is
    missing.  On a record without missing amounts it is the plain running
    total. *)
Theorem obs_pcp_sum_03h_total (precipitation : list float) (k : nat) :
  (k <= length precipitation / 3)%nat ->
  nth k (obs_pcp_sum_03h precipitation) nan
  = (if is_nan (nth (3 * k) (obs_pcp precipitation) 0) then nan
     else fold_left add (map nan_to_zero (firstn (3 * k) precipitation)) 0) /\
  (Forall (fun x => is_nan x = false) precipitation ->
   nth k (obs_pcp_sum_03h precipitation) nan
   = fold_left add (firstn (3 * k) precipitation) 0).
Proof.
  intro Hk. split; [now apply nth_obs_03h|].
  intro Hp. rewrite nth_obs_03h by exact Hk.
  assert (H3 : (3 * k <= length precipitation)%nat).
  { pose proof (Nat.div_mod_eq (length precipitation) 3). lia. }
  assert (Hf : Forall (fun x => is_nan x = false) (firstn (3 * k) precipitation)).
  { rewrite Forall_forall in *. intros x Hx. apply Hp.
    rewrite <- (firstn_skipn (3 * k) precipitation).
    apply in_or_app. left. exact Hx. }
  rewrite (map_nan_to_zero_id _ Hf).
  destruct k as [|k]; [reflexivity|].
  unfold obs_pcp.
  replace (3 * S k)%nat with (S (3 * k + 2)) by lia. cbn [nth].
  rewrite Forall_forall in Hp.
  rewrite (Hp (nth (3 * k + 2) precipitation 0)); [reflexivity|].
  apply nth_In. lia.
Qed.

Lemma obs_pcp_sum_03h_total_witness :
  nth 1 (obs_pcp_sum_03h hourly) nan
  = (if is_nan (nth (3 * 1) (obs_pcp hourly) 0) then nan
     else fold_left add (map nan_to_zero (firstn (3 * 1) hourly)) 0) /\
  (Forall (fun x => is_nan x = false) hourly ->
   nth 1 (obs_pcp_sum_03h hourly) nan = fold_left add (firstn (3 * 1) hourly) 0).
Proof.
  apply (obs_pcp_sum_03h_total hourly 1). cbn. lia.
Defined.

(** X10: an hourly amount that is missing at an hour that is not kept is
    silently counted as 0: if the amounts of the hours 3, 6, 9, ... are
    present, the accumulated observations are those of the record with
    every missing amount replaced by 0. *)
Theorem obs_pcp_sum_03h_missing (precipitation : list float) :
  (forall k, (1 <= k <= length precipitation / 3)%nat ->
     is_nan (nth (3 * k - 1) precipitation 0) = false) ->
  obs_pcp_sum_03h precipitation
  = obs_pcp_sum_03h (map nan_to_zero precipitation).
Proof.
  intro H.
  apply (nth_ext _ _ nan nan).
  - now rewrite !length_obs_03h, length_map.
  - intros k Hk. rewrite length_obs_03h in Hk.
    rewrite !nth_obs_03h by (rewrite ?length_map; lia).
    assert (E1 : is_nan (nth (3 * k) (obs_pcp precipitation) 0) = false).
    { destruct k as [|k]; [reflexivity|]. unfold obs_pcp.
      replace (3 * S k)%nat with (S (3 * S k - 1)) by lia. cbn [nth].
      apply H. lia. }
    assert (E2 : is_nan (nth (3 * k) (obs_pcp (map nan_to_zero precipitation)) 0)
                 = false).
    { destruct k as [|k]; [reflexivity|]. unfold obs_pcp.
      replace (3 * S k)%nat with (S (3 * S k - 1)) by lia. cbn [nth].
      change 0 with (nan_to_zero 0) at 1. rewrite map_nth.
      apply nan_to_zero_not_nan. }
    rewrite E1, E2. rewrite firstn_map, map_map. f_equal. apply map_ext.
    intro x. rewrite (nan_to_zero_id (nan_to_zero x)); [reflexivity|].
    apply nan_to_zero_not_nan.
Qed.

Lemma obs_pcp_sum_03h_missing_witness :
  obs_pcp_sum_03h hourly_gap = obs_pcp_sum_03h (map nan_to_zero hourly_gap).
Proof.
  apply (obs_pcp_sum_03h_missing hourly_gap).
  intros k Hk. cbn in Hk. assert (E : k = 1%nat) by lia. subst k. reflexivity.
Defined.

(** ** The ensemble mean *)

Lemma mean_axis0_rect (r : list float) (rest : list (list float)) :
  Forall (fun r' => length r' = length r) rest ->
  mean_axis0 (r :: rest)
  = Done (Vector (map (fun t => mean float64 (column (r :: rest) t))
                      (seq 0 (length r)))).
Proof.
  intro H. unfold mean_axis0.
  assert (E : forallb (fun r' => (length r' =? length r)%nat) rest = true).
  { apply forallb_forall. rewrite Forall_forall in H.
    intros r' Hr'. apply Nat.eqb_eq, H, Hr'. }
  now rewrite E.
Qed.

Lemma dict_get_key {V} (k : String.string) (d : dict V) :
  In k (dict_keys d) -> exists v, dict_get k d = Done v.
Proof.
  induction d as [|[k' v'] d IH]; intro H; [destruct H|].
  cbn [dict_get]. destruct (String.eqb_spec k k') as [E|E].
  - eexists. reflexivity.
  - apply IH. destruct H as [H|H]; [|exact H].
    cbn [fst] in H. congruence.
Qed.

Lemma dict_get_missing {V} (k : String.string) (d : dict V) :
  ~ In k (dict_keys d) -> dict_get k d = Fail KeyError.
Proof.
  induction d as [|[k' v'] d IH]; intro H; [reflexivity|].
  cbn [dict_get]. cbn [dict_keys map fst In] in H.
  destruct (String.eqb_spec k k') as [E|E].
  - exfalso. apply H. left. symmetry. exact E.
  - apply IH. intro C. apply H. right. exact C.
Qed.

(** The mean of the rows of [pcp], before the lookup of ['mem1']. *)
Lemma mean_rows_done (pcp : dict (list float)) (w : nat) :
  pcp <> [] ->
  Forall (fun kv => length (snd kv) = w) pcp ->
  mean_axis0 (map snd pcp)
  = Done (Vector (map (fun t => mean float64 (map (fun kv => nth t (snd kv) nan) pcp))
                      (seq 0 w))).
Proof.
  intros Hne Hw.
  destruct pcp as [|[k r] pcp]; [contradiction|].
  cbn [map snd].
  inversion Hw as [|? ? Hr Hrest]; subst. cbn [snd] in *.
  rewrite mean_axis0_rect by (rewrite Forall_map; exact Hrest).
  do 2 f_equal. apply map_ext. intro t.
  unfold column. cbn [map snd]. now rewrite map_map.
Qed.

Lemma mean_pcp_done (pcp : dict (list float)) (w : nat) :
  NoDup (dict_keys pcp) -> In mem1 (dict_keys pcp) ->
  Forall (fun kv => length (snd kv) = w) pcp ->
  mean_pcp pcp
  = Done (Vector (map (fun t => mean float64 (map (fun kv => nth t (snd kv) nan) pcp))
                      (seq 0 w))).
Proof.
  intros ND Hin Hw. unfold mean_pcp. rewrite (dict_values pcp ND).
  cbn [and_then].
  assert (Hne : pcp <> []) by (intros ->; destruct Hin).
  rewrite (mean_rows_done pcp w Hne Hw). cbn [and_then].
  destruct (dict_get_key mem1 pcp Hin) as [v ->]. reflexivity.
Qed.

Lemma mean_pcp_no_mem1 (pcp : dict (list float)) (w : nat) :
  NoDup (dict_keys pcp) -> ~ In mem1 (dict_keys pcp) ->
  Forall (fun kv => length (snd kv) = w) pcp ->
  mean_pcp pcp = Fail KeyError.
Proof.
  intros ND Hin Hw. unfold mean_pcp. rewrite (dict_values pcp ND).
  cbn [and_then].
  destruct pcp as [|kv pcp].
  - reflexivity.
  - rewrite (mean_rows_done (kv :: pcp) w) by (trivial; discriminate).
    cbn [and_then]. now rewrite (dict_get_missing mem1 _ Hin).
Qed.

(** ** The error of each member *)

Lemma rmse_lengths_raise (s obs : list float) :
  length s <> length obs -> length s <> 1%nat -> length obs <> 1%nat ->
  rmse s obs = Raise ValueError_broadcast.
Proof.
  intros H1 H2 H3. unfold rmse, rmse_over, error, broadcast1.
  destruct (Nat.eqb_spec (length s) (length obs)) as [E|_]; [contradiction|].
  destruct s as [|a [|a' s]], obs as [|b [|b' obs]]; cbn [length] in *;
    try reflexivity; exfalso; auto.
Qed.

Lemma ens_fail_stays pcp obs keys e :
  fold_left (ens_rmse_step pcp obs) keys (Fail e) = Fail e.
Proof. induction keys as [|k l IH]; [reflexivity|exact IH]. Qed.

Lemma ens_rmse_done (pcp : dict (list float)) (obs : list float)
    (val : list float -> float) :
  NoDup (dict_keys pcp) ->
  (forall k s, In (k, s) pcp -> rmse s obs = Ok (val s)) ->
  ens_rmse pcp obs = Done (map (fun kv => (fst kv, val (snd kv))) pcp).
Proof.
  intros ND H. unfold ens_rmse, dict_keys.
  assert (G : forall l, incl l pcp -> NoDup (map fst l) ->
            fold_left (ens_rmse_step pcp obs) (map fst l) (Done [])
            = Done (map (fun kv => (fst kv, val (snd kv))) l)).
  { induction l as [|[k s] l IH] using rev_ind; intros Hl NDl; [reflexivity|].
    rewrite map_app, fold_left_app. cbn [map fst fold_left].
    rewrite map_app in NDl. cbn [map fst] in NDl.
    pose proof (NoDup_remove (map fst l) [] k NDl) as Hr.
    rewrite app_nil_r in Hr. destruct Hr as [NDl' Hk].
    rewrite IH; [|intros x Hx; apply Hl, in_or_app; left; exact Hx|exact NDl'].
    assert (Hin : In (k, s) pcp)
      by (apply Hl, in_or_app; right; left; reflexivity).
    unfold ens_rmse_step. cbn [and_then].
    rewrite (dict_get_in k s pcp ND Hin). cbn [and_then].
    rewrite (H k s Hin). cbn [of_result and_then].
    rewrite dict_set_new.
    - rewrite map_app. reflexivity.
    - unfold dict_keys. rewrite map_map. cbn [fst]. exact Hk. }
  apply G; [apply incl_refl|exact ND].
Qed.

Lemma ens_rmse_raises (pcp : dict (list float)) (obs : list float) k s e :
  NoDup (dict_keys pcp) -> In (k, s) pcp -> rmse s obs = Raise e ->
  ens_rmse pcp obs = Fail (NumPyError ValueError_broadcast).
Proof.
  intros ND Hin Hr. unfold ens_rmse, dict_keys.
  assert (G : forall l acc, incl l pcp -> In (k, s) l ->
            (acc = Fail (NumPyError ValueError_broadcast) \/ exists d, acc = Done d) ->
            fold_left (ens_rmse_step pcp obs) (map fst l) acc
            = Fail (NumPyError ValueError_broadcast)).
  { induction l as [|[k' s'] l IH]; intros acc Hl Hks Hacc; [destruct Hks|].
    cbn [map fst fold_left]. destruct Hacc as [-> | [d ->]].
    - apply ens_fail_stays.
    - assert (Hin' : In (k', s') pcp) by (apply Hl; left; reflexivity).
      unfold ens_rmse_step at 2. cbn [and_then].
      rewrite (dict_get_in k' s' pcp ND Hin'). cbn [and_then].
      destruct (rmse s' obs) as [v|e'] eqn:Ev; cbn [of_result and_then].
      + destruct Hks as [Hks|Hks]; [congruence|].
        apply IH; [intros x Hx; apply Hl; right; exact Hx|exact Hks|].
        right. eexists. reflexivity.
      + rewrite (rmse_raises_broadcast s' obs e' Ev). apply ens_fail_stays. }
  apply (G pcp); [apply incl_refl|exact Hin|right; eexists; reflexivity].
Qed.

(** X11: for a [pcp] whose series all have [w] values: when ['mem1'] is one
    of its keys, the ensemble mean is a 1-D array of [w] values, and at a
    time where the value of some member is NaN the ensemble mean is NaN;
    when ['mem1'] is not one of its keys, the statement raises KeyError. *)
Theorem mean_pcp_times (pcp : dict (list float)) (w : nat) :
  NoDup (dict_keys pcp) ->
  Forall (fun kv => length (snd kv) = w) pcp ->
  (In mem1 (dict_keys pcp) ->
   exists xs,
     mean_pcp pcp = Done (Vector xs) /\
     length xs = w /\
     forall t, (t < w)%nat ->
       Exists (fun kv => is_nan (nth t (snd kv) nan) = true) pcp ->
       nth t xs nan = nan) /\
  (~ In mem1 (dict_keys pcp) -> mean_pcp pcp = Fail KeyError).
Proof.
  intros ND Hw. split; [|intro Hin; now apply (mean_pcp_no_mem1 pcp w)].
  intro Hin. rewrite (mean_pcp_done pcp w ND Hin Hw).
  eexists. split; [reflexivity|]. split; [now rewrite length_map, length_seq|].
  intros t Ht Hex.
  rewrite (nth_indep _ nan
             ((fun t => mean float64 (map (fun kv => nth t (snd kv) nan) pcp)) 0%nat))
    by now rewrite length_map, length_seq.
  rewrite (map_nth (fun t => mean float64 (map (fun kv => nth t (snd kv) nan) pcp))),
    seq_nth by exact Ht.
  apply mean_nan. apply Exists_exists in Hex.
  destruct Hex as [kv [Hin' Hnan]]. apply is_nan_eq in Hnan.
  apply (in_map (fun kv => nth t (snd kv) nan)) in Hin'.
  rewrite Hnan in Hin'. exact Hin'.
Qed.

Lemma mean_pcp_times_witness :
  (In mem1 (dict_keys two_members) ->
   exists xs,
     mean_pcp two_members = Done (Vector xs) /\
     length xs = 3%nat /\
     forall t, (t < 3)%nat ->
       Exists (fun kv => is_nan (nth t (snd kv) nan) = true) two_members ->
       nth t xs nan = nan) /\
  (~ In mem1 (dict_keys two_members) -> mean_pcp two_members = Fail KeyError).
Proof.
  apply (mean_pcp_times two_members 3).
  - apply (NoDup_member_keys [1; 2]%nat). repeat constructor; cbn; lia.
  - repeat constructor.
Defined.

(** A [pcp] without the key ['mem1'] has a mean, but the statement ends in
    the KeyError of the lookup. *)
Example mean_pcp_without_mem1 :
  mean_pcp [(member_key 2, [1; 2; 3])] = Fail KeyError.
Proof. reflexivity. Qed.

(** X12: when every member series has as many values as the observations, the
    loop over [pcp.keys()] completes: [ens_rmse] has the keys of [pcp] in
    the same order, and its value at each key is the RMSE of that member's
    series against the observations. *)
Theorem ens_rmse_keys (pcp : dict (list float)) (obs : list float) :
  NoDup (dict_keys pcp) ->
  Forall (fun kv => length (snd kv) = length obs) pcp ->
  exists ens,
    ens_rmse pcp obs = Done ens /\
    dict_keys ens = dict_keys pcp /\
    Forall2 (fun kv ke => fst ke = fst kv /\ rmse (snd kv) obs = Ok (snd ke))
            pcp ens.
Proof.
  intros ND Hlen.
  set (val := fun s => match rmse s obs with Ok v => v | Raise _ => nan end).
  assert (Hv : forall k s, In (k, s) pcp -> rmse s obs = Ok (val s)).
  { intros k s Hin. rewrite Forall_forall in Hlen.
    destruct (rmse_equal_length s obs (Hlen _ Hin)) as [v Ev].
    unfold val. now rewrite Ev. }
  exists (map (fun kv => (fst kv, val (snd kv))) pcp).
  split; [now apply ens_rmse_done|]. split.
  - unfold dict_keys. now rewrite map_map.
  - clear ND Hlen. induction pcp as [|[k s] pcp IH]; cbn [map]; constructor.
    + cbn [fst snd]. split; [reflexivity|].
      apply (Hv k). left. reflexivity.
    + apply IH. intros k' s' Hin. apply (Hv k'). right. exact Hin.
Qed.

Lemma ens_rmse_keys_witness :
  exists ens,
    ens_rmse two_members [1; 2; 3] = Done ens /\
    dict_keys ens = dict_keys two_members /\
    Forall2 (fun kv ke => fst ke = fst kv /\ rmse (snd kv) [1; 2; 3] = Ok (snd ke))
            two_members ens.
Proof.
  apply (ens_rmse_keys two_members [1; 2; 3]).
  - apply (NoDup_member_keys [1; 2]%nat). repeat constructor; cbn; lia.
  - repeat constructor.
Defined.

(** X13: one member series whose length differs from that of the observations
    (neither being 1) makes the loop raise the broadcast ValueError, also
    when the other members match. *)
Theorem ens_rmse_mismatch (pcp : dict (list float)) (obs : list float)
    (k : String.string) (s : list float) :
  NoDup (dict_keys pcp) -> In (k, s) pcp ->
  length s <> length obs -> length s <> 1%nat -> length obs <> 1%nat ->
  ens_rmse pcp obs = Fail (NumPyError ValueError_broadcast).
Proof.
  intros ND Hin H1 H2 H3.
  apply (ens_rmse_raises pcp obs k s ValueError_broadcast ND Hin).
  now apply rmse_lengths_raise.
Qed.

Lemma ens_rmse_mismatch_witness :
  ens_rmse two_members [1; 2] = Fail (NumPyError ValueError_broadcast).
Proof.
  apply (ens_rmse_mismatch two_members [1; 2] (member_key 2) [0; nan; 0]).
  - apply (NoDup_member_keys [1; 2]%nat). repeat constructor; cbn; lia.
  - right. left. reflexivity.
  - cbn. lia.
  - cbn. lia.
  - cbn. lia.
Defined.

(** X14: in the bar chart the labels, the positions and the heights line up: the
    first bar is the ensemble mean and the bars after it are the entries of
    [ens_rmse] in the order of its keys, each under its own key. *)
Theorem bar_chart_aligned (mean_rmse : float) (ens : dict float) :
  NoDup (dict_keys ens) ->
  exists hs,
    bar_heights mean_rmse ens = Done hs /\
    combine (bar_members ens) hs = (mean_label, mean_rmse) :: ens /\
    bar_y_pos ens = seq 0 (length hs).
Proof.
  intro ND. exists (mean_rmse :: map snd ens).
  unfold bar_heights, bar_y_pos, bar_members.
  rewrite (dict_values ens ND). cbn [and_then].
  split; [reflexivity|]. split.
  - cbn [combine]. f_equal. unfold dict_keys.
    clear ND. induction ens as [|[k v] ens IH]; [reflexivity|].
    cbn [map fst snd combine]. now rewrite IH.
  - f_equal. cbn [length]. f_equal. unfold dict_keys.
    rewrite !length_map. reflexivity.
Qed.

Lemma bar_chart_aligned_witness :
  exists hs,
    bar_heights 1 two_errors = Done hs /\
    combine (bar_members two_errors) hs = (mean_label, 1) :: two_errors /\
    bar_y_pos two_errors = seq 0 (length hs).
Proof.
  apply (bar_chart_aligned 1 two_errors).
  apply (NoDup_member_keys [1; 2]%nat). repeat constructor; cbn; lia.
Defined.

(** ** From the grids to the members' errors *)

Lemma run_cells_pcp (L : Libm) (lat lon : ndarray) (tot_pcp : nat -> ncvar)
    (m n nt : nat) :
  wf lat -> wf lon -> shape lat = (m, n) -> shape lon = (m, n) ->
  (0 < m * n)%nat ->
  (forall i, (1 <= i <= 20)%nat -> shape3 (tot_pcp i) = (nt, m, n)) ->
  exists idx pcp,
    lat_lon_2D_index L lat lon klan_lat klan_lon = Ok idx /\
    load_members tot_pcp idx (seq 1 20) = Done pcp /\
    pcp = map (fun i => (member_key i,
                         map (fun t => values3 (tot_pcp i) t (fst idx) (snd idx))
                             (seq 0 (nt - 8))))
              (seq 1 20) /\
    NoDup (dict_keys pcp) /\
    In mem1 (dict_keys pcp) /\
    Forall (fun kv => length (snd kv) = (nt - 8)%nat) pcp.
Proof.
  intros Wy Wx Sy Sx Hmn Hs.
  destruct (locator_cells L lat lon klan_lat klan_lon m n Wy Wx Sy Sx Hmn)
    as [i [j [Hret [Hi [Hj _]]]]].
  exists (i, j). eexists. split; [exact Hret|]. cbn [fst snd].
  split; [|split; [reflexivity|]].
  - apply (load_members_done tot_pcp (i, j) (seq 1 20)
             (fun i' => map (fun t => values3 (tot_pcp i') t i j) (seq 0 (nt - 8)))).
    + apply seq_NoDup.
    + intros i' Hi'. apply in_seq in Hi'. cbn [fst snd].
      apply (point_series_in_grid _ _ _ nt m n); [apply Hs; lia|exact Hi|exact Hj].
  - split; [|split].
    + unfold dict_keys. rewrite map_map. cbn [fst].
      apply NoDup_member_keys, seq_NoDup.
    + unfold dict_keys. rewrite map_map. cbn [fst]. left. reflexivity.
    + apply Forall_forall. intros kv Hkv. apply in_map_iff in Hkv.
      destruct Hkv as [i' [<- _]]. cbn [snd].
      now rewrite length_map, length_seq.
Qed.

(** X15: with grids of one non-empty shape (m, n), twenty member files on that
    grid with [nt] times each, and [N] hourly observations such that
    [nt - 8 = 1 + N div 3], the cells run through: the result holds the
    index the locator returns for KLAN, the twenty series and the twenty
    errors under the keys mem1 ... mem20 in this order, and the ensemble
    mean and every series have as many values as the observations. *)
Theorem run_cells_completes (L : Libm) (lat lon : ndarray)
    (tot_pcp : nat -> ncvar) (precipitation : list float) (m n nt : nat) :
  wf lat -> wf lon -> shape lat = (m, n) -> shape lon = (m, n) ->
  (0 < m * n)%nat ->
  (forall i, (1 <= i <= 20)%nat -> shape3 (tot_pcp i) = (nt, m, n)) ->
  (nt - 8 = S (length precipitation / 3))%nat ->
  exists r,
    run_cells L lat lon tot_pcp precipitation = Done r /\
    lat_lon_2D_index L lat lon klan_lat klan_lon = Ok (v_idx r) /\
    dict_keys (v_pcp r) = map member_key (seq 1 20) /\
    dict_keys (v_ens_rmse r) = map member_key (seq 1 20) /\
    Forall (fun kv => length (snd kv) = length (v_obs r)) (v_pcp r) /\
    exists xs, v_mean_pcp r = Vector xs /\ length xs = length (v_obs r).
Proof.
  intros Wy Wx Sy Sx Hmn Hs Hnt.
  destruct (run_cells_pcp L lat lon tot_pcp m n nt Wy Wx Sy Sx Hmn Hs)
    as [idx [pcp [Hidx [Hload [Epcp [ND [Hm1 Hlen]]]]]]].
  assert (Hobs : length (obs_pcp_sum_03h precipitation) = (nt - 8)%nat)
    by (rewrite length_obs_03h; lia).
  assert (Hlen' : Forall (fun kv => length (snd kv)
                                    = length (obs_pcp_sum_03h precipitation)) pcp)
    by (rewrite Hobs; exact Hlen).
  set (val := fun s => match rmse s (obs_pcp_sum_03h precipitation) with
                       | Ok v => v | Raise _ => nan end).
  assert (Hv : forall k s, In (k, s) pcp ->
               rmse s (obs_pcp_sum_03h precipitation) = Ok (val s)).
  { intros k s Hin. rewrite Forall_forall in Hlen'.
    destruct (rmse_equal_length s _ (Hlen' _ Hin)) as [v Ev].
    unfold val. now rewrite Ev. }
  eexists. unfold run_cells. rewrite Hidx. cbn [of_result and_then].
  rewrite Hload. cbn [and_then].
  rewrite (mean_pcp_done pcp (nt - 8) ND Hm1 Hlen). cbn [and_then].
  rewrite (ens_rmse_done pcp _ val ND Hv). cbn [and_then].
  split; [reflexivity|]. cbn [v_idx v_pcp v_ens_rmse v_obs v_mean_pcp].
  split; [reflexivity|].
  assert (K : dict_keys pcp = map member_key (seq 1 20)).
  { rewrite Epcp. unfold dict_keys. now rewrite map_map. }
  split; [exact K|]. split.
  - rewrite <- K. unfold dict_keys. now rewrite map_map.
  - split; [exact Hlen'|].
    eexists. split; [reflexivity|]. now rewrite length_map, length_seq, Hobs.
Qed.

Lemma run_cells_completes_witness :
  exists r,
    run_cells SoftLibm.libm lansing_lat lansing_lon (plume_tot_pcp 10) hourly
    = Done r /\
    lat_lon_2D_index SoftLibm.libm lansing_lat lansing_lon klan_lat klan_lon
    = Ok (v_idx r) /\
    dict_keys (v_pcp r) = map member_key (seq 1 20) /\
    dict_keys (v_ens_rmse r) = map member_key (seq 1 20) /\
    Forall (fun kv => length (snd kv) = length (v_obs r)) (v_pcp r) /\
    exists xs, v_mean_pcp r = Vector xs /\ length xs = length (v_obs r).
Proof.
  apply (run_cells_completes SoftLibm.libm lansing_lat lansing_lon
           (plume_tot_pcp 10) hourly 1 2 10); try reflexivity.
  cbn. lia.
Defined.
